(** * SelectumPropertyParser: extraction, normalisation and pagination

    A shallow embedding of [src/parsers/selectumproperty.py] and the
    properties of its three components: the extractor of the embedded
    [realEstatesData] payload, the normaliser of one record, and the
    page loop. *)

From Stdlib Require Import ZArith List Lia Bool String Ascii.
From Corelib Require Import SpecFloat.
Import ListNotations.
Open Scope Z_scope.
Set Warnings "-register-all".

(** ** Python values *)

(** A Python [str] is a sequence of Unicode code points. *)
Definition str := list Z.

Definition code (c : ascii) : Z := Z.of_N (N_of_ascii c).

(** [lit s] is the Python string literal with the ASCII characters of [s]. *)
Fixpoint lit (s : string) : str :=
  match s with
  | EmptyString => []
  | String c s' => code c :: lit s'
  end.

Definition len {A} (l : list A) : Z := Z.of_nat (List.length l).

(** The values [json.loads] produces: [None], [bool], [int], [float],
    [str], [list] and [dict] with string keys.  A [dict] keeps its keys in
    insertion order. *)
Inductive value :=
| JNull
| JBool (b : bool)
| JInt (n : Z)
| JFloat (f : spec_float)
| JStr (s : str)
| JList (l : list value)
| JObj (d : list (str * value)).

Definition dict := list (str * value).

(** The exceptions (all subclasses of [Exception]) the modelled code can
    meet. *)
Inductive exn :=
| TypeError | AttributeError | ValueError | KeyError | IndexError
| UnboundLocalError | UnicodeEncodeError | UnicodeDecodeError
| JSONDecodeError | RecursionError | RequestException.

(** The outcome of a call: a returned value or a raised exception. *)
Inductive outcome (A : Type) :=
| Ok (a : A)
| Raise (e : exn).
Arguments Ok {A} a.
Arguments Raise {A} e.

Definition bind {A B} (r : outcome A) (k : A -> outcome B) : outcome B :=
  match r with
  | Ok a => k a
  | Raise e => Raise e
  end.

Notation "'let*' x ':=' r 'in' k" := (bind r (fun x => k))
  (at level 10, x name, r at level 100, k at level 200).

(** [try: r except Exception: h] *)
Definition try_except {A} (r : outcome A) (h : exn -> outcome A) : outcome A :=
  match r with
  | Ok a => Ok a
  | Raise e => h e
  end.

(** *** Strings *)

Definition str_eqb (a b : str) : bool :=
  if list_eq_dec Z.eq_dec a b then true else false.

Fixpoint starts_with (key text : str) : bool :=
  match key, text with
  | [], _ => true
  | k :: key', c :: text' => (k =? c) && starts_with key' text'
  | _ :: _, [] => false
  end.

(** [text.find(key)] searched from a suffix [text] that begins at index
    [pos]: the lowest index at which [key] occurs, or [-1]. *)
Fixpoint find_from (key text : str) (pos : Z) : Z :=
  if starts_with key text then pos
  else match text with
       | [] => -1
       | _ :: text' => find_from key text' (pos + 1)
       end.

Definition str_find (text key : str) : Z := find_from key text 0.

(** Slice bounds as Python normalises them: a negative bound counts from
    the end, and both are clamped to [0, len]. *)
Definition slice_bound (i n : Z) : Z :=
  if i <? 0 then Z.max 0 (i + n) else Z.min i n.

(** [text[a:b]] *)
Definition slice {A} (text : list A) (a b : Z) : list A :=
  let a' := slice_bound a (len text) in
  let b' := slice_bound b (len text) in
  firstn (Z.to_nat (b' - a')) (skipn (Z.to_nat a') text).

(** *** Truth value, iteration, attribute access *)

Definition SFis_zero (f : spec_float) : bool :=
  match f with
  | S754_zero _ => true
  | _ => false
  end.

Definition is_nil {A} (l : list A) : bool :=
  match l with
  | [] => true
  | _ :: _ => false
  end.

(** [bool(v)] *)
Definition truthy (v : value) : bool :=
  match v with
  | JNull => false
  | JBool b => b
  | JInt n => negb (n =? 0)
  | JFloat f => negb (SFis_zero f)
  | JStr s => negb (is_nil s)
  | JList l => negb (is_nil l)
  | JObj d => negb (is_nil d)
  end.

(** *** Dictionaries *)

Fixpoint dict_get (k : str) (d : dict) : option value :=
  match d with
  | [] => None
  | (k', v) :: d' => if str_eqb k k' then Some v else dict_get k d'
  end.

(** [k in d] *)
Definition dict_mem (k : str) (d : dict) : bool :=
  match dict_get k d with
  | Some _ => true
  | None => false
  end.

(** [d[k] = v]: an existing key keeps its place, a new key goes last. *)
Fixpoint dict_set (k : str) (v : value) (d : dict) : dict :=
  match d with
  | [] => [(k, v)]
  | (k', v') :: d' =>
      if str_eqb k k' then (k', v) :: d' else (k', v') :: dict_set k v d'
  end.

(** [d[k]] *)
Definition dict_item (k : str) (d : dict) : outcome value :=
  match dict_get k d with
  | Some v => Ok v
  | None => Raise KeyError
  end.

(** [v.get(k, default)]: only a [dict] has the method. *)
Definition py_get (v : value) (k : str) (default : value) : outcome value :=
  match v with
  | JObj d =>
      match dict_get k d with
      | Some x => Ok x
      | None => Ok default
      end
  | _ => Raise AttributeError
  end.

(** [v[k]] for a string key [k]. *)
Definition py_item (v : value) (k : str) : outcome value :=
  match v with
  | JObj d => dict_item k d
  | _ => Raise TypeError
  end.

(** [iter(v)]: the elements a [for] loop over [v] visits. *)
Definition py_iter (v : value) : outcome (list value) :=
  match v with
  | JList l => Ok l
  | JStr s => Ok (map (fun c => JStr [c]) s)
  | JObj d => Ok (map (fun kv => JStr (fst kv)) d)
  | _ => Raise TypeError
  end.

(** [a + b] where [a] is a [str]. *)
Definition str_add (a : str) (b : value) : outcome str :=
  match b with
  | JStr s => Ok (a ++ s)
  | _ => Raise TypeError
  end.

(** ** The extractor *)

Definition quote : Z := 34.
Definition lbrace : Z := 123.
Definition rbrace : Z := 125.

(** ['"realEstatesData":'] *)
Definition key_prefix : str := quote :: lit "realEstatesData" ++ quote :: lit ":".

(** [key = '"realEstatesData":{'] *)
Definition key : str := key_prefix ++ lit "{".

(** [stack.pop()] *)
Definition pop {A} (stack : list A) : outcome (list A) :=
  match stack with
  | [] => Raise IndexError
  | _ :: _ => Ok (removelast stack)
  end.

(** The [for j in range(i + 1, len(text))] loop of [extract_realestates];
    [rest] is [text[j:]].  [Some e] is the value of [end] at the [break],
    [None] is the [else] branch of the loop. *)
Fixpoint scan (rest : str) (j : Z) (stack : list Z) : outcome (option Z) :=
  match rest with
  | [] => Ok None
  | c :: rest' =>
      if c =? lbrace then scan rest' (j + 1) (stack ++ [lbrace])
      else if c =? rbrace then
        let* stack' := pop stack in
        if is_nil stack' then Ok (Some (j + 1))
        else scan rest' (j + 1) stack'
      else scan rest' (j + 1) stack
  end.

Section Extractor.

(** [json.loads], from the standard library. *)
Variable json_loads : str -> outcome value.

(** [print('...', e)] in the handler: it returns, or it raises when the
    standard output does not take the message. *)
Variable print_error : exn -> outcome unit.

Definition extract_realestates (text : str) : outcome value :=
  let start := str_find text key in
  if start =? -1 then Ok (JList [])
  else
    let i := start + len key - 1 in
    let* found := scan (slice text (i + 1) (len text)) (i + 1) [lbrace] in
    match found with
    | None => Ok (JList [])
    | Some end_ =>
        let block := slice text (start + len key_prefix) end_ in
        try_except
          (let* data := json_loads block in
           py_get data (lit "realEstates") (JList []))
          (fun e => let* _ := print_error e in Ok (JList []))
    end.

End Extractor.

(** ** The normaliser *)

Definition BASE_IMAGE_URL : str :=
  lit "https://selectumproperty.com/_next/image?url=https%3A%2F%2Fselectumproperty.com%2Fapi%2Ffiles%2Fproperty-images%2F".

(** [s.encode('latin1')]: one byte per code point, which must be at most
    255. *)
Fixpoint latin1_encode (s : str) : outcome (list Z) :=
  match s with
  | [] => Ok []
  | c :: s' =>
      if (0 <=? c) && (c <=? 255) then
        let* bs := latin1_encode s' in Ok (c :: bs)
      else Raise UnicodeEncodeError
  end.

(** A continuation byte, 0x80..0xBF. *)
Definition is_cont (b : Z) : bool := (128 <=? b) && (b <=? 191).

Definition in_range (lo hi b : Z) : bool := (lo <=? b) && (b <=? hi).

(** The second byte of a three-byte sequence: no overlong form after 0xE0,
    no surrogate after 0xED. *)
Definition second3 (b0 b1 : Z) : bool :=
  if b0 =? 224 then in_range 160 191 b1
  else if b0 =? 237 then in_range 128 159 b1
  else is_cont b1.

(** The second byte of a four-byte sequence: no overlong form after 0xF0,
    nothing above U+10FFFF after 0xF4. *)
Definition second4 (b0 b1 : Z) : bool :=
  if b0 =? 240 then in_range 144 191 b1
  else if b0 =? 244 then in_range 128 143 b1
  else is_cont b1.

(** [bs.decode('utf-8')] with the default strict error handling.  Each
    byte has passed its range check when its payload bits are taken, so
    they are written as a difference. *)
Fixpoint utf8_decode (bs : list Z) : outcome str :=
  match bs with
  | [] => Ok []
  | b0 :: r0 =>
      if in_range 0 127 b0 then
        let* t := utf8_decode r0 in Ok (b0 :: t)
      else if in_range 194 223 b0 then
        match r0 with
        | b1 :: r1 =>
            if is_cont b1 then
              let* t := utf8_decode r1 in
              Ok ((b0 - 192) * 64 + (b1 - 128) :: t)
            else Raise UnicodeDecodeError
        | _ => Raise UnicodeDecodeError
        end
      else if in_range 224 239 b0 then
        match r0 with
        | b1 :: b2 :: r2 =>
            if second3 b0 b1 && is_cont b2 then
              let* t := utf8_decode r2 in
              Ok ((b0 - 224) * 4096 + (b1 - 128) * 64 + (b2 - 128) :: t)
            else Raise UnicodeDecodeError
        | _ => Raise UnicodeDecodeError
        end
      else if in_range 240 244 b0 then
        match r0 with
        | b1 :: b2 :: b3 :: r3 =>
            if second4 b0 b1 && is_cont b2 && is_cont b3 then
              let* t := utf8_decode r3 in
              Ok ((b0 - 240) * 262144 + (b1 - 128) * 4096
                  + (b2 - 128) * 64 + (b3 - 128) :: t)
            else Raise UnicodeDecodeError
        | _ => Raise UnicodeDecodeError
        end
      else Raise UnicodeDecodeError
  end.

(** The UTF-8 encoding of one code point, and the code points that have
    one: up to U+10FFFF, the surrogates left out. *)
Definition utf8_encode_cp (c : Z) : list Z :=
  if c <? 128 then [c]
  else if c <? 2048 then [192 + c / 64; 128 + c mod 64]
  else if c <? 65536 then
    [224 + c / 4096; 128 + (c / 64) mod 64; 128 + c mod 64]
  else
    [240 + c / 262144; 128 + (c / 4096) mod 64; 128 + (c / 64) mod 64;
     128 + c mod 64].

Definition scalar (c : Z) : Prop :=
  0 <= c <= 1114111 /\ ~ (55296 <= c <= 57343).

(** [text.encode('latin1')]: only a [str] has the method. *)
Definition py_encode_latin1 (text : value) : outcome (list Z) :=
  match text with
  | JStr s => latin1_encode s
  | _ => Raise AttributeError
  end.

Definition decode_text (text : value) : outcome value :=
  if negb (truthy text) then Ok (JStr [])
  else
    try_except
      (let* bs := py_encode_latin1 text in
       let* s := utf8_decode bs in
       Ok (JStr s))
      (fun _ => Ok text).

(** A [for] loop whose body updates one variable. *)
Fixpoint for_each {A S} (body : S -> A -> outcome S) (l : list A) (s : S)
  : outcome S :=
  match l with
  | [] => Ok s
  | a :: l' => let* s' := body s a in for_each body l' s'
  end.

(** A comprehension [[e for x in l if c]]: [step x] is the list of the
    zero or one elements that [x] contributes. *)
Fixpoint comprehension {A B} (step : A -> outcome (list B)) (l : list A)
  : outcome (list B) :=
  match l with
  | [] => Ok []
  | x :: l' =>
      let* ys := step x in
      let* rest := comprehension step l' in
      Ok (ys ++ rest)
  end.

(** [sep.join(items)]: every item must be a [str]. *)
Fixpoint str_join (sep : str) (items : list value) : outcome str :=
  match items with
  | [] => Ok []
  | JStr s :: items' =>
      if is_nil items' then Ok s
      else let* t := str_join sep items' in Ok (s ++ sep ++ t)
  | _ :: _ => Raise TypeError
  end.

Definition is_none (v : value) : bool :=
  match v with
  | JNull => true
  | _ => false
  end.

(** [isinstance(v, list)] *)
Definition is_list (v : value) : bool :=
  match v with
  | JList _ => true
  | _ => false
  end.

(** [d.get(k, default)] on a [dict]. *)
Definition dict_get_default (k : str) (default : value) (d : dict) : value :=
  match dict_get k d with
  | Some v => v
  | None => default
  end.

Definition text_fields : list str :=
  [lit "title"; lit "location"; lit "area"; lit "houseType"].

(** The body of the loop over the four text fields. *)
Definition decode_field (res : dict) (key : str) : outcome dict :=
  if dict_mem key res then
    let* v := dict_item key res in
    if negb (is_none v) then
      let* v' := decode_text v in
      Ok (dict_set key v' res)
    else Ok res
  else Ok res.

(** One step of the [image_urls] comprehension. *)
Definition image_url (img : value) : outcome (list value) :=
  let* cond := py_get img (lit "file_name") JNull in
  if truthy cond then
    let* file_name := py_item img (lit "file_name") in
    let* a := str_add BASE_IMAGE_URL file_name in
    let* b := str_add a (JStr (lit "&w=2048&q=75")) in
    Ok [JStr b]
  else Ok [].

(** One step of the generator that [', '.join] consumes. *)
Definition type_name (t : value) : outcome (list value) :=
  let* cond := py_get t (lit "name") JNull in
  if truthy cond then
    let* name := py_get t (lit "name") (JStr []) in
    let* d := decode_text name in
    Ok [d]
  else Ok [].

(** [format_estate] on a mapping; [res] is the copy [dict(estate)]. *)
Definition format_estate (estate : dict) : outcome dict :=
  let res := estate in
  let* res := for_each decode_field text_fields res in
  let images := dict_get_default (lit "images") (JList []) res in
  let* imgs := py_iter images in
  let* urls := comprehension image_url imgs in
  let res := dict_set (lit "image_urls") (JList urls) res in
  let types := dict_get_default (lit "types") JNull res in
  if truthy types && is_list types then
    let* ts := py_iter types in
    let* names := comprehension type_name ts in
    let* joined := str_join (lit ", ") names in
    Ok (dict_set (lit "types") (JStr joined) res)
  else Ok (dict_set (lit "types") (JStr []) res).

(** ** The paginator *)

(** The function's effect on the outside is the sequence of page numbers
    it has requested; a computation carries that log along and ends in a
    value or an exception. *)
Definition M (A : Type) : Type := list Z -> outcome A * list Z.

Definition ret {A} (a : A) : M A := fun log => (Ok a, log).

Definition mbind {A B} (m : M A) (k : A -> M B) : M B :=
  fun log =>
    match m log with
    | (Ok a, log') => k a log'
    | (Raise e, log') => (Raise e, log')
    end.

Definition lift {A} (r : outcome A) : M A := fun log => (r, log).

Notation "'do' x '<-' m ';' k" := (mbind m (fun x => k))
  (at level 10, x name, m at level 100, k at level 200).

(** [n] consecutive integers from [a] on. *)
Fixpoint range_from (a : Z) (n : nat) : list Z :=
  match n with
  | O => []
  | S n' => a :: range_from (a + 1) n'
  end.

(** [range(a, b)] *)
Definition py_range (a b : Z) : list Z := range_from a (Z.to_nat (b - a)).

(** The local variables of [get_all_realestates]; [None] is a name that
    is not bound yet. *)
Record locals := {
  page : option Z;
  estates : option (list dict);
  all_estates : list dict
}.

(** Reading a local variable. *)
Definition local {A} (o : option A) : outcome A :=
  match o with
  | Some a => Ok a
  | None => Raise UnboundLocalError
  end.

Section Paginator.

Variable json_loads : str -> outcome value.
Variable print_error : exn -> outcome unit.

(** [self.session.get(url, params={'page': str(page)}, ...).text]: the
    text the site answers for a page, or the exception of a failed
    request.  The answer is taken to depend on the page number only; a
    run requests each page at most once. *)
Variable session_get : Z -> outcome str.

(** [format_estate] on an element that is not a mapping, outside its
    annotated argument type; what [dict(estate)] makes of a sequence of
    pairs need not have string keys, so this case is left open. *)
Variable format_nonmapping : value -> outcome dict.

Definition fetch (page : Z) : M str :=
  fun log => (session_get page, log ++ [page]).

Definition format_element (e : value) : outcome (list dict) :=
  match e with
  | JObj d => let* r := format_estate d in Ok [r]
  | _ => let* r := format_nonmapping e in Ok [r]
  end.

(** What [get_realestates_page] computes from the answer of the site,
    apart from the request itself. *)
Definition page_records (page : Z) : outcome (list dict) :=
  let* response := session_get page in
  let* raw_estates := extract_realestates json_loads print_error response in
  let* elems := py_iter raw_estates in
  comprehension format_element elems.

Definition get_realestates_page (page : Z) : M (list dict) :=
  do response <- fetch page;
  do raw_estates <- lift (extract_realestates json_loads print_error response);
  do elems <- lift (py_iter raw_estates);
  do estates <- lift (comprehension format_element elems);
  ret estates.

(** The [for page in range(1, max_pages + 1)] loop over the pages still
    to visit. *)
Fixpoint page_loop (pages : list Z) (l : locals) : M locals :=
  match pages with
  | [] => ret l
  | p :: pages' =>
      let l := {| page := Some p; estates := estates l;
                  all_estates := all_estates l |} in
      do es <- get_realestates_page p;
      let l := {| page := page l; estates := Some es;
                  all_estates := all_estates l |} in
      if is_nil es then ret l
      else page_loop pages' {| page := page l; estates := estates l;
                               all_estates := all_estates l ++ es |}
  end.

Definition get_all_realestates (max_pages : Z) : M (list dict) :=
  do l <- page_loop (py_range 1 (max_pages + 1))
            {| page := None; estates := None; all_estates := [] |};
  (* f"{page if estates else page-1}" *)
  do es <- lift (local (estates l));
  do shown <- (if negb (is_nil es) then lift (local (page l))
               else do p <- lift (local (page l)); ret (p - 1));
  ret (all_estates l).

End Paginator.

(** ** A reference decoder for [json.loads]

    The extractor is stated for any decoder.  To run it on concrete page
    texts this module gives one that follows the grammar the standard
    library's scanner accepts: white space, objects (a repeated key keeps
    its first place and takes its last value), arrays, strings with their
    escapes and surrogate pairs, integers, correctly rounded binary64
    floats, and the literals.  The interpreter's limits on nesting depth
    and on the length of an integer literal are not modelled. *)
Module JsonRef.

Definition backslash : Z := 92.

Definition is_ws (c : Z) : bool :=
  (c =? 32) || (c =? 9) || (c =? 10) || (c =? 13).

Fixpoint skip_ws (s : str) : str :=
  match s with
  | c :: s' => if is_ws c then skip_ws s' else s
  | [] => []
  end.

Definition is_digit (c : Z) : bool := in_range 48 57 c.

Definition hex_digit (c : Z) : option Z :=
  if in_range 48 57 c then Some (c - 48)
  else if in_range 97 102 c then Some (c - 87)
  else if in_range 65 70 c then Some (c - 55)
  else None.

Definition hex4 (a b c d : Z) : option Z :=
  match hex_digit a, hex_digit b, hex_digit c, hex_digit d with
  | Some x, Some y, Some z, Some w => Some (((x * 16 + y) * 16 + z) * 16 + w)
  | _, _, _, _ => None
  end.

Definition simple_escape (e : Z) : option Z :=
  if e =? quote then Some quote
  else if e =? backslash then Some backslash
  else if e =? 47 then Some 47
  else if e =? code "b" then Some 8
  else if e =? code "f" then Some 12
  else if e =? code "n" then Some 10
  else if e =? code "r" then Some 13
  else if e =? code "t" then Some 9
  else None.

Definition push (c : Z) (r : option (str * str)) : option (str * str) :=
  match r with
  | Some (t, rest) => Some (c :: t, rest)
  | None => None
  end.

Definition join_surrogates (hi lo : Z) : Z :=
  65536 + (hi - 55296) * 1024 + (lo - 56320).

(** The body of a string literal, after its opening quote: the decoded
    text and what follows the closing quote. *)
Fixpoint scan_string (s : str) : option (str * str) :=
  match s with
  | [] => None
  | c :: s1 =>
      if c =? quote then Some ([], s1)
      else if c =? backslash then
        match s1 with
        | [] => None
        | e :: s2 =>
            if e =? code "u" then
              match s2 with
              | h1 :: h2 :: h3 :: h4 :: s6 =>
                  match hex4 h1 h2 h3 h4 with
                  | None => None
                  | Some u =>
                      match s6 with
                      | b :: u' :: g1 :: g2 :: g3 :: g4 :: s12 =>
                          match hex4 g1 g2 g3 g4 with
                          | Some u2 =>
                              if in_range 55296 56319 u && (b =? backslash)
                                 && (u' =? code "u")
                                 && in_range 56320 57343 u2
                              then push (join_surrogates u u2) (scan_string s12)
                              else push u (scan_string s6)
                          | None => push u (scan_string s6)
                          end
                      | _ => push u (scan_string s6)
                      end
                  end
              | _ => None
              end
            else
              match simple_escape e with
              | Some x => push x (scan_string s2)
              | None => None
              end
        end
      else if c <? 32 then None
      else push c (scan_string s1)
  end.

(** The longest run of decimal digits at the head of [s]. *)
Fixpoint take_digits (s : str) : list Z * str :=
  match s with
  | c :: s' =>
      if is_digit c then
        let '(ds, rest) := take_digits s' in (c - 48 :: ds, rest)
      else ([], s)
  | [] => ([], [])
  end.

Definition digits_value (ds : list Z) : Z :=
  fold_left (fun acc d => acc * 10 + d) ds 0.

(** The binary64 float nearest to [m * 10 ^ e10], for [0 <= m]. *)
Definition float_of_decimal (neg : bool) (m e10 : Z) : spec_float :=
  match m with
  | Zpos p =>
      if 0 <=? e10 then binary_round 53 1024 neg (p * Z.to_pos (10 ^ e10)) 0
      else SFdiv 53 1024 (S754_finite neg p 0)
             (S754_finite false (Z.to_pos (10 ^ (- e10))) 0)
  | _ => S754_zero neg
  end.

(** The integer part of a number: [0], or a digit from 1 to 9 and any
    digits after it. *)
Definition take_int (s : str) : option (list Z * str) :=
  match s with
  | c :: s' =>
      if c =? 48 then Some ([0], s')
      else if is_digit c then Some (take_digits s)
      else None
  | [] => None
  end.

(** [.digits], when a digit follows the point. *)
Definition take_frac (s : str) : option (list Z * str) :=
  match s with
  | c :: d :: s' =>
      if (c =? 46) && is_digit d then Some (take_digits (d :: s')) else None
  | _ => None
  end.

(** [e], an optional sign and digits, when a digit is there. *)
Definition take_exp (s : str) : option (Z * str) :=
  match s with
  | c :: s1 =>
      if (c =? code "e") || (c =? code "E") then
        match s1 with
        | d :: s2 =>
            if is_digit d then
              let '(ds, rest) := take_digits s1 in Some (digits_value ds, rest)
            else if ((d =? 43) || (d =? 45)) then
              match s2 with
              | d' :: _ =>
                  if is_digit d' then
                    let '(ds, rest) := take_digits s2 in
                    Some ((if d =? 45 then -1 else 1) * digits_value ds, rest)
                  else None
              | [] => None
              end
            else None
        | [] => None
        end
      else None
  | [] => None
  end.

(** A number after its optional sign. *)
Definition scan_unsigned (neg : bool) (s : str) : option (value * str) :=
  match take_int s with
  | None => None
  | Some (ints, s1) =>
      let '(fracs, s2, has_frac) :=
        match take_frac s1 with
        | Some (fs, r) => (fs, r, true)
        | None => ([], s1, false)
        end in
      let '(e, s3, has_exp) :=
        match take_exp s2 with
        | Some (e, r) => (e, r, true)
        | None => (0, s2, false)
        end in
      if has_frac || has_exp then
        Some (JFloat (float_of_decimal neg (digits_value (ints ++ fracs))
                        (e - len fracs)), s3)
      else
        Some (JInt ((if neg then -1 else 1) * digits_value ints), s3)
  end.

Definition strip (prefix s : str) : option str :=
  if starts_with prefix s then Some (skipn (List.length prefix) s) else None.

(** [null], [true], [false], [NaN], [Infinity], [-Infinity] or a
    number. *)
Definition scan_atom (s : str) : option (value * str) :=
  match strip (lit "null") s with Some r => Some (JNull, r) | None =>
  match strip (lit "true") s with Some r => Some (JBool true, r) | None =>
  match strip (lit "false") s with Some r => Some (JBool false, r) | None =>
  match strip (lit "NaN") s with Some r => Some (JFloat S754_nan, r) | None =>
  match strip (lit "Infinity") s with
  | Some r => Some (JFloat (S754_infinity false), r) | None =>
  match strip (lit "-Infinity") s with
  | Some r => Some (JFloat (S754_infinity true), r) | None =>
  match s with
  | c :: s' => if c =? 45 then scan_unsigned true s' else scan_unsigned false s
  | [] => None
  end end end end end end end.

(** One value at the head of [s], and what follows it.  [fuel] bounds
    the depth of the calls. *)
Fixpoint scan_value (fuel : nat) (s : str) : option (value * str) :=
  match fuel with
  | O => None
  | S fuel' =>
      match s with
      | [] => None
      | c :: s1 =>
          if c =? quote then
            match scan_string s1 with
            | Some (t, r) => Some (JStr t, r)
            | None => None
            end
          else if c =? lbrace then
            match skip_ws s1 with
            | c' :: r =>
                if c' =? rbrace then Some (JObj [], r)
                else
                  match scan_members fuel' (c' :: r) [] with
                  | Some (d, r') => Some (JObj d, r')
                  | None => None
                  end
            | [] => None
            end
          else if c =? 91 then
            match skip_ws s1 with
            | c' :: r =>
                if c' =? 93 then Some (JList [], r)
                else
                  match scan_elements fuel' (c' :: r) with
                  | Some (l, r') => Some (JList l, r')
                  | None => None
                  end
            | [] => None
            end
          else scan_atom s
      end
  end

(** The members of an object from a key on, up to the closing brace;
    [acc] is the dictionary built so far. *)
with scan_members (fuel : nat) (s : str) (acc : dict)
  : option (dict * str) :=
  match fuel with
  | O => None
  | S fuel' =>
      match s with
      | c :: s1 =>
          if c =? quote then
            match scan_string s1 with
            | Some (k, r1) =>
                match skip_ws r1 with
                | c2 :: r2 =>
                    if c2 =? 58 then
                      match scan_value fuel' (skip_ws r2) with
                      | Some (v, r3) =>
                          let acc := dict_set k v acc in
                          match skip_ws r3 with
                          | c4 :: r4 =>
                              if c4 =? rbrace then Some (acc, r4)
                              else if c4 =? 44 then
                                scan_members fuel' (skip_ws r4) acc
                              else None
                          | [] => None
                          end
                      | None => None
                      end
                    else None
                | [] => None
                end
            | None => None
            end
          else None
      | [] => None
      end
  end

(** The elements of an array from a value on, up to the closing
    bracket. *)
with scan_elements (fuel : nat) (s : str) : option (list value * str) :=
  match fuel with
  | O => None
  | S fuel' =>
      match scan_value fuel' s with
      | Some (v, r1) =>
          match skip_ws r1 with
          | c :: r2 =>
              if c =? 93 then Some ([v], r2)
              else if c =? 44 then
                match scan_elements fuel' (skip_ws r2) with
                | Some (l, r3) => Some (v :: l, r3)
                | None => None
                end
              else None
          | [] => None
          end
      | None => None
      end
  end.

(** [json.loads(s)]: one value, with white space around it and nothing
    else. *)
Definition loads (s : str) : outcome value :=
  match scan_value (S (List.length s)) (skip_ws s) with
  | Some (v, r) =>
      if is_nil (skip_ws r) then Ok v else Raise JSONDecodeError
  | None => Raise JSONDecodeError
  end.

End JsonRef.

(** A standard output that takes every message, and one that cannot
    encode the Cyrillic text of the handler's message. *)
Definition quiet_print (e : exn) : outcome unit := Ok tt.
Definition ascii_print (e : exn) : outcome unit := Raise UnicodeEncodeError.

(** [jl s] is [lit s] with every apostrophe turned into a double quote,
    to write JSON text. *)
Definition jl (s : string) : str :=
  map (fun c => if c =? 39 then quote else c) (lit s).

(** ** Notions the statements use *)

(** [key] occurs in [text] as a substring. *)
Definition occurs (key text : str) : Prop :=
  exists pre post, text = pre ++ key ++ post.

(** The change of brace depth over [s]: opening braces minus closing
    braces, with no regard to string literals. *)
Fixpoint depth (s : str) : Z :=
  match s with
  | [] => 0
  | c :: s' =>
      (if c =? lbrace then 1 else if c =? rbrace then -1 else 0) + depth s'
  end.

(** After the opening brace of the marker, the depth counter never comes
    back to zero anywhere in [rest]. *)
Definition never_closes (rest : str) : Prop :=
  forall n, (n <= List.length rest)%nat -> 1 + depth (firstn n rest) <> 0.

(** [body] is what follows an opening brace up to and including the first
    character at which the depth counter comes back to zero. *)
Definition closes_at_end (body : str) : Prop :=
  1 + depth body = 0 /\
  forall n, (n < List.length body)%nat -> 1 + depth (firstn n body) <> 0.

(** Decision procedures for the two conditions on concrete texts. *)
Fixpoint open_throughout (d : Z) (s : str) : bool :=
  negb (d =? 0) &&
  match s with
  | [] => true
  | c :: s' =>
      open_throughout
        (d + (if c =? lbrace then 1 else if c =? rbrace then -1 else 0)) s'
  end.

Fixpoint closes_last (d : Z) (s : str) : bool :=
  match s with
  | [] => d =? 0
  | c :: s' =>
      negb (d =? 0) &&
      closes_last
        (d + (if c =? lbrace then 1 else if c =? rbrace then -1 else 0)) s'
  end.

(** The re-decoding of a text as the specification words it: the code
    points taken as single bytes and decoded as UTF-8, or the text itself
    when either step fails. *)
Definition redecode (s : str) : str :=
  match latin1_encode s with
  | Ok bs =>
      match utf8_decode bs with
      | Ok t => t
      | Raise _ => s
      end
  | Raise _ => s
  end.

Definition is_str (v : value) : bool :=
  match v with
  | JStr _ => true
  | _ => false
  end.

(** The non-empty string that the entry [entry] holds under [k], if it is
    a mapping that holds one. *)
Definition text_under (k : str) (entry : value) : option str :=
  match entry with
  | JObj d =>
      match dict_get k d with
      | Some (JStr f) => if is_nil f then None else Some f
      | _ => None
      end
  | _ => None
  end.

(** The image URLs as the specification words them: one per entry with a
    non-empty file name, in order. *)
Definition image_step (img : value) : list str :=
  match text_under (lit "file_name") img with
  | Some f => [BASE_IMAGE_URL ++ f ++ lit "&w=2048&q=75"]
  | None => []
  end.

Definition image_urls_spec (imgs : list value) : list str :=
  flat_map image_step imgs.

(** [sep.join] on strings. *)
Fixpoint join_strs (sep : str) (l : list str) : str :=
  match l with
  | [] => []
  | s :: l' => if is_nil l' then s else s ++ sep ++ join_strs sep l'
  end.

(** The flattened types as the specification words them: the re-decoded
    non-empty names, joined by a comma and a space. *)
Definition type_step (t : value) : list str :=
  match text_under (lit "name") t with
  | Some n => [redecode n]
  | None => []
  end.

Definition type_names_spec (ts : list value) : list str :=
  flat_map type_step ts.

Definition types_spec (ts : list value) : str :=
  join_strs (lit ", ") (type_names_spec ts).

(** The two derived entries as the specification words them, from
    [images] and [types] alone. *)
Definition derived_urls (estate : dict) : list str :=
  match dict_get (lit "images") estate with
  | Some (JList imgs) => image_urls_spec imgs
  | _ => []
  end.

Definition derived_types (estate : dict) : str :=
  match dict_get (lit "types") estate with
  | Some (JList ts) => types_spec ts
  | _ => []
  end.

(** An entry the two comprehensions can handle: a mapping that holds
    under [k] nothing, a false value or a string. *)
Definition entry_ok (k : str) (entry : value) : bool :=
  match entry with
  | JObj d =>
      match dict_get k d with
      | None => true
      | Some v => negb (truthy v) || is_str v
      end
  | _ => false
  end.

(** [images] is absent or a list of such entries. *)
Definition images_ok (estate : dict) : bool :=
  match dict_get (lit "images") estate with
  | None => true
  | Some (JList imgs) => forallb (entry_ok (lit "file_name")) imgs
  | Some _ => false
  end.

(** [types], when it is a list, is a list of such entries. *)
Definition types_ok (estate : dict) : bool :=
  match dict_get (lit "types") estate with
  | Some (JList ts) => forallb (entry_ok (lit "name")) ts
  | _ => true
  end.

(** The two derived entries of [format_estate], each as a function of
    the record it reads. *)
Definition image_urls_of (res : dict) : outcome (list value) :=
  let* imgs := py_iter (dict_get_default (lit "images") (JList []) res) in
  comprehension image_url imgs.

Definition types_of (res : dict) : outcome str :=
  let types := dict_get_default (lit "types") JNull res in
  if truthy types && is_list types then
    let* ts := py_iter types in
    let* names := comprehension type_name ts in
    str_join (lit ", ") names
  else Ok [].

(** What the loop over the text fields leaves under a key it visits. *)
Definition decoded_value (v : value) : value :=
  if is_none v then v
  else match decode_text v with
       | Ok v' => v'
       | Raise _ => v
       end.

(** ** Notions the further properties use *)

Definition is_obj (v : value) : bool :=
  match v with
  | JObj _ => true
  | _ => false
  end.

(** What the extractor makes of the decoder's answer for the block: the
    entry of an object; for any other value, on which [.get] raises
    [AttributeError], and for a decoder that raises, the handler's print
    and then the empty list. *)
Definition select_entry (print_error : exn -> outcome unit)
           (r : outcome value) : outcome value :=
  match r with
  | Ok (JObj d) => Ok (dict_get_default (lit "realEstates") (JList []) d)
  | Ok _ => let* _ := print_error AttributeError in Ok (JList [])
  | Raise e => let* _ := print_error e in Ok (JList [])
  end.

(** [images] is something the comprehension can walk through: absent, a
    list of entries it can handle, or an empty string or mapping. *)
Definition images_walkable (estate : dict) : bool :=
  match dict_get (lit "images") estate with
  | None => true
  | Some (JList imgs) => forallb (entry_ok (lit "file_name")) imgs
  | Some (JStr s) => is_nil s
  | Some (JObj d) => is_nil d
  | Some _ => false
  end.

(** [ks] with [k] put last unless it is there already: the keys of a
    [dict] after [d[k] = v]. *)
Definition with_key (k : str) (ks : list str) : list str :=
  if existsb (str_eqb k) ks then ks else ks ++ [k].

(** The keys [format_estate] sets apart from the text fields. *)
Definition derived_keys : list str := [lit "image_urls"; lit "types"].

(** [v] is [null], a boolean or a number: a [for] loop over it raises. *)
Definition not_iterable (v : value) : bool :=
  match v with
  | JNull | JBool _ | JInt _ | JFloat _ => true
  | _ => false
  end.

(** ** The rows of [save_to_postgres] *)

Section Sink.

(** [str(v)] for a value that is not a string. *)
Variable str_of_other : value -> str.

(** [str(v)] *)
Definition py_str (v : value) : str :=
  match v with
  | JStr s => s
  | _ => str_of_other v
  end.

(** [e.get(k)] on a [dict]. *)
Definition col (k : string) (e : dict) : value :=
  dict_get_default (lit k) JNull e.

(** The tuple that the [rows] comprehension builds from one record. *)
Definition estate_row (e : dict) : list value :=
  [col "id" e; col "title" e; col "bed_room" e; col "max_bed" e;
   col "bathroom" e; col "metrage" e; col "price" e; col "price_min" e;
   col "price_max" e; col "location" e; col "area" e; col "money_type" e;
   col "is_multi" e; col "houseType" e;
   (if negb (is_none (col "types" e)) then JStr (py_str (col "types" e))
    else JNull);
   col "image_urls" e].

End Sink.

(** ** Sample inputs *)

(** A page without the marker, and a page cut off inside the payload. *)
Definition page_no_marker : str := jl "<html><body>nothing here {}</body></html>".
Definition page_cut_head : str := jl "<script>self.push(".
Definition page_cut_tail : str := jl "'realEstates':[{'id':1},{'id':2".

(** A payload as [json.dumps] writes it, between two pieces of noise. *)
Definition noise_before : str := jl "<script>self.__next_f.push([1,'x',{}])".
Definition noise_after : str := jl ",'total':2}</script>".
Definition payload_body : str :=
  jl "'realEstates': [{'id': 7, 'title': 'Villa'}, {'id': 8}], 'page': 1}".
Definition payload_dict : dict :=
  [(lit "realEstates",
    JList [JObj [(lit "id", JInt 7); (lit "title", JStr (lit "Villa"))];
           JObj [(lit "id", JInt 8)]]);
   (lit "page", JInt 1)].

(** An object with one record whose title is a closing brace, as
    [json.dumps] writes it: a brace inside a string literal. *)
Definition brace_in_string : str := jl "{'realEstates': [{'title': '}'}]}".

(** A record with a title that is UTF-8 read as Latin-1, two images of
    which one has no file name, three types of which one has no name, and
    a stale [image_urls] entry. *)
Definition sample_estate : dict :=
  [(lit "id", JInt 7);
   (lit "title", JStr [208; 159; 209; 128; 208; 184]);
   (lit "location", JStr (lit "Phuket"));
   (lit "images",
    JList [JObj [(lit "file_name", JStr (lit "a.jpg"))];
           JObj [(lit "file_name", JStr [])]]);
   (lit "types",
    JList [JObj [(lit "name", JStr (lit "Villa"))];
           JObj [(lit "name", JStr (lit "Condo"))];
           JObj [(lit "name", JStr [])]]);
   (lit "image_urls", JStr (lit "stale"))].

Definition sample_normalized : dict :=
  Eval vm_compute in
    match format_estate sample_estate with
    | Ok r => r
    | Raise _ => []
    end.

(** A record whose [types] is a string, and one with no [images]. *)
Definition estate_types_text : dict :=
  [(lit "id", JInt 8); (lit "types", JStr (lit "not-a-list"))].

(** A record whose [types] list holds a string instead of a mapping. *)
Definition estate_types_of_strings : dict :=
  [(lit "id", JInt 9); (lit "types", JList [JStr (lit "Villa")])].

(** A page whose payload holds [null] under [realEstates]. *)
Definition page_null : str :=
  jl "<script>'realEstatesData':{'realEstates': null, 'total': 0}</script>".

(** A site of two pages of records, and pages without a payload after
    them. *)
Definition page_one : str :=
  noise_before ++ key_prefix ++ (lbrace :: payload_body) ++ noise_after.
Definition page_two : str :=
  jl "<script>'realEstatesData':{'realEstates': [{'id': 9}]}</script>".

Definition sample_site (p : Z) : outcome str :=
  if p =? 1 then Ok page_one
  else if p =? 2 then Ok page_two
  else Ok page_no_marker.

(** The sample site serves mappings only, so the choice made here for
    other elements is never consulted. *)
Definition no_nonmapping (e : value) : outcome dict := Raise TypeError.

Definition sample_records (p : Z) : list dict :=
  match page_records JsonRef.loads quiet_print sample_site no_nonmapping p with
  | Ok l => l
  | Raise _ => []
  end.

(** Leading noise that itself holds the marker, before an empty object. *)
Definition noise_with_marker : str := jl "<script>'realEstatesData':{}</script>".

(** The block that the scan cuts out of the payload with a brace in a
    title, and what it leaves behind. *)
Definition cut_body : str := jl "'realEstates': [{'title': '}'}".
Definition cut_rest : str := jl "]}</script>".

(** A record whose text fields hold no strings: a zero, [null], a list;
    [houseType] is absent. *)
Definition estate_odd_fields : dict :=
  [(lit "title", JInt 0); (lit "location", JNull);
   (lit "area", JList [JInt 1]); (lit "price", JInt 100)].

Definition odd_fields_normalized : dict :=
  Eval vm_compute in
    match format_estate estate_odd_fields with
    | Ok r => r
    | Raise _ => []
    end.

(** Records that make [format_estate] raise: [images] is a number; the
    second image is a string; the second image has a number for a file
    name. *)
Definition good_image : value := JObj [(lit "file_name", JStr (lit "a.jpg"))].
Definition estate_images_number : dict := [(lit "images", JInt 5)].
Definition estate_image_text : dict :=
  [(lit "images", JList [good_image; JStr (lit "b.jpg")])].
Definition estate_file_name_number : dict :=
  [(lit "images", JList [good_image; JObj [(lit "file_name", JInt 5)]])].

(** A page whose second record has a [types] list of strings, and a site
    that serves it as page 2. *)
Definition page_bad_record : str :=
  jl "<script>'realEstatesData':{'realEstates': [{'id': 1}, {'id': 2, 'types': ['Villa']}, {'id': 3}]}</script>".

Definition site_raising (p : Z) : outcome str :=
  if p =? 1 then Ok page_one else Ok page_bad_record.

(** * Properties *)

(** ** Lists and strings *)

Lemma len_app {A} (a b : list A) : len (a ++ b) = len a + len b.
Proof. unfold len. rewrite length_app. lia. Qed.

Lemma len_cons {A} (x : A) (l : list A) : len (x :: l) = 1 + len l.
Proof. unfold len. simpl List.length. lia. Qed.

Lemma len_nonneg {A} (l : list A) : 0 <= len l.
Proof. unfold len. lia. Qed.

Lemma str_eqb_eq (a b : str) : str_eqb a b = true <-> a = b.
Proof.
  unfold str_eqb. destruct (list_eq_dec Z.eq_dec a b); split; congruence.
Qed.

Lemma str_eqb_refl (a : str) : str_eqb a a = true.
Proof. now apply str_eqb_eq. Qed.

Lemma str_eqb_neq (a b : str) : a <> b -> str_eqb a b = false.
Proof.
  intros H. destruct (str_eqb a b) eqn:E; [|reflexivity].
  apply str_eqb_eq in E. contradiction.
Qed.

Lemma slice_middle {A} (a b c : list A) :
  slice (a ++ b ++ c) (len a) (len a + len b) = b.
Proof.
  unfold slice, slice_bound.
  pose proof (len_nonneg a). pose proof (len_nonneg b). pose proof (len_nonneg c).
  rewrite !len_app.
  destruct (len a <? 0) eqn:E1; [apply Z.ltb_lt in E1; lia|].
  destruct (len a + len b <? 0) eqn:E2; [apply Z.ltb_lt in E2; lia|].
  rewrite !Z.min_l by lia.
  replace (Z.to_nat (len a)) with (List.length a) by (unfold len; lia).
  replace (Z.to_nat (len a + len b - len a)) with (List.length b)
    by (unfold len; lia).
  rewrite skipn_app, skipn_all, Nat.sub_diag. simpl.
  rewrite firstn_app, firstn_all, Nat.sub_diag. simpl. apply app_nil_r.
Qed.

Lemma slice_suffix {A} (a b : list A) :
  slice (a ++ b) (len a) (len (a ++ b)) = b.
Proof.
  rewrite len_app.
  rewrite <- (app_nil_r b) at 1. rewrite slice_middle. reflexivity.
Qed.

Lemma starts_with_app (k r : str) : starts_with k (k ++ r) = true.
Proof.
  induction k as [|c k IH]; simpl; [reflexivity|].
  now rewrite Z.eqb_refl, IH.
Qed.

Lemma starts_with_inv (k t : str) :
  starts_with k t = true -> exists r, t = k ++ r.
Proof.
  revert t. induction k as [|c k IH]; intros t H; simpl in *.
  - now exists t.
  - destruct t as [|c' t]; [discriminate|].
    apply andb_true_iff in H as [Hc Ht]. apply Z.eqb_eq in Hc. subst c'.
    destruct (IH _ Ht) as [r ->]. now exists r.
Qed.

(** A prefix test only looks at as many characters as the prefix has. *)
Lemma starts_with_short (k a b : str) :
  (List.length k <= List.length a)%nat ->
  starts_with k (a ++ b) = starts_with k a.
Proof.
  revert a. induction k as [|c k IH]; intros a H; simpl in *; [reflexivity|].
  destruct a as [|c' a]; simpl in *; [lia|].
  rewrite IH by lia. reflexivity.
Qed.

Lemma occurs_cons (k : str) (c : Z) (t : str) :
  ~ occurs k (c :: t) -> ~ occurs k t.
Proof.
  intros H [pre [post ->]]. apply H. now exists (c :: pre), post.
Qed.

Lemma occurs_here (k t : str) : starts_with k t = true -> occurs k t.
Proof.
  intros H. destruct (starts_with_inv _ _ H) as [r ->]. now exists [], r.
Qed.

Lemma find_from_range (k t : str) (pos : Z) :
  find_from k t pos = -1 \/ pos <= find_from k t pos <= pos + len t.
Proof.
  revert pos. induction t as [|c t IH]; intros pos; simpl.
  - destruct (starts_with k []); [right; unfold len; simpl; lia | now left].
  - destruct (starts_with k (c :: t)).
    + right. pose proof (len_nonneg (c :: t)). lia.
    + destruct (IH (pos + 1)) as [H|H]; [now left|right].
      rewrite len_cons. lia.
Qed.

(** [find] answers [-1] exactly when the key does not occur. *)
Lemma find_absent (k t : str) (pos : Z) :
  0 <= pos -> (find_from k t pos = -1 <-> ~ occurs k t).
Proof.
  revert pos. induction t as [|c t IH]; intros pos Hpos; simpl.
  - destruct (starts_with k []) eqn:E.
    + split; [lia|]. intros H. exfalso. apply H. now apply occurs_here.
    + split; [|reflexivity]. intros _ [pre [post H]].
      destruct pre; [|discriminate]. simpl in H.
      destruct k; [discriminate E|discriminate H].
  - destruct (starts_with k (c :: t)) eqn:E.
    + split; [lia|]. intros H. exfalso. apply H. now apply occurs_here.
    + rewrite (IH (pos + 1)) by lia. split.
      * intros H [pre [post Heq]]. destruct pre as [|c' pre].
        -- simpl in Heq. rewrite Heq, starts_with_app in E. discriminate.
        -- injection Heq as _ Heq. apply H. now exists pre, post.
      * apply occurs_cons.
Qed.

Lemma str_find_absent (text k : str) :
  str_find text k = -1 <-> ~ occurs k text.
Proof. unfold str_find. apply find_absent. lia. Qed.

Lemma find_from_eq (k t : str) (pos : Z) :
  find_from k t pos =
  if starts_with k t then pos
  else match t with
       | [] => -1
       | _ :: t' => find_from k t' (pos + 1)
       end.
Proof. destruct t; reflexivity. Qed.

(** If [key] starts at no position inside [pre], the first occurrence in
    [pre ++ key ++ rest] is the one right after [pre]. *)
Lemma find_from_first (k pre rest : str) (pos : Z) :
  (forall p1 p2, pre = p1 ++ p2 -> p2 <> [] ->
                 starts_with k (p2 ++ k ++ rest) = false) ->
  find_from k (pre ++ k ++ rest) pos = pos + len pre.
Proof.
  revert pos. induction pre as [|c pre IH]; intros pos H.
  - rewrite find_from_eq. simpl app. rewrite starts_with_app.
    unfold len. simpl. lia.
  - rewrite find_from_eq.
    rewrite (H [] (c :: pre) eq_refl) by discriminate.
    change ((c :: pre) ++ k ++ rest) with (c :: (pre ++ k ++ rest)).
    cbv iota. rewrite IH.
    + rewrite len_cons. lia.
    + intros p1 p2 -> Hp2. now apply (H (c :: p1) p2).
Qed.

Lemma starts_with_skip (k p t : str) :
  starts_with k (p ++ t) = true ->
  (List.length p <= List.length k)%nat ->
  starts_with (skipn (List.length p) k) t = true.
Proof.
  revert k. induction p as [|c p IH]; intros k H Hl; simpl in *; [exact H|].
  destruct k as [|c' k]; simpl in *; [lia|].
  apply andb_true_iff in H as [_ H]. apply IH; [exact H|lia].
Qed.

(** The marker is no proper suffix-prefix overlap of itself: a second copy
    cannot start inside one. *)
Lemma key_no_border (n : nat) :
  (1 <= n < List.length key)%nat -> starts_with (skipn n key) key = false.
Proof.
  intros Hn.
  assert (H : forallb (fun n => negb (starts_with (skipn n key) key))
                (seq 1 (List.length key - 1)) = true) by (vm_compute; reflexivity).
  rewrite forallb_forall in H.
  specialize (H n). rewrite in_seq in H.
  apply negb_true_iff, H. lia.
Qed.

Lemma key_no_overlap (pre p1 p2 rest : str) :
  ~ occurs key pre -> pre = p1 ++ p2 -> p2 <> [] ->
  starts_with key (p2 ++ key ++ rest) = false.
Proof.
  intros Hno -> Hp2.
  destruct (starts_with key (p2 ++ key ++ rest)) eqn:E; [exfalso|reflexivity].
  destruct (Nat.le_gt_cases (List.length key) (List.length p2)) as [Hl|Hl].
  - rewrite starts_with_short in E by exact Hl.
    apply starts_with_inv in E as [r ->].
    apply Hno. now exists p1, r.
  - apply starts_with_skip in E; [|lia].
    rewrite starts_with_short in E by (rewrite length_skipn; lia).
    rewrite key_no_border in E; [discriminate|].
    destruct p2; [congruence|simpl; simpl in Hl; lia].
Qed.

Lemma str_find_first (pre rest : str) :
  ~ occurs key pre -> str_find (pre ++ key ++ rest) key = len pre.
Proof.
  intros Hno. unfold str_find. rewrite find_from_first; [lia|].
  intros p1 p2 Hp Hp2. now apply (key_no_overlap pre p1 p2).
Qed.

(** ** The brace scan *)

Lemma is_nil_len {A} (l : list A) : is_nil l = true <-> len l = 0.
Proof.
  destruct l as [|a l]; simpl.
  - split; reflexivity.
  - rewrite len_cons. pose proof (len_nonneg l). split; [discriminate|lia].
Qed.

Lemma len_removelast {A} (l : list A) :
  l <> [] -> len (removelast l) = len l - 1.
Proof.
  intros H. destruct (exists_last H) as [l' [a ->]].
  rewrite removelast_last, len_app. unfold len at 3. simpl. lia.
Qed.

Lemma pop_nonempty {A} (stack : list A) :
  stack <> [] -> pop stack = Ok (removelast stack).
Proof. destruct stack; [congruence|reflexivity]. Qed.

Lemma is_nil_false {A} (l : list A) : l <> [] -> is_nil l = false.
Proof. destruct l; [congruence|reflexivity]. Qed.

Lemma len_pos_nonempty {A} (l : list A) : len l <> 0 -> l <> [].
Proof. intros H ->. now apply H. Qed.

(** With a stack that is not empty [pop] never fails, so the scan ends
    without an exception. *)
Lemma scan_ok (rest : str) (j : Z) (stack : list Z) :
  stack <> [] -> exists r, scan rest j stack = Ok r.
Proof.
  revert j stack. induction rest as [|c rest IH]; intros j stack Hs; simpl.
  - now exists None.
  - destruct (c =? lbrace).
    + apply IH. destruct stack; discriminate.
    + destruct (c =? rbrace); [|now apply IH].
      rewrite pop_nonempty by exact Hs. unfold bind.
      destruct (is_nil (removelast stack)) eqn:E; [eauto|].
      apply IH. intros E'. rewrite E' in E. discriminate.
Qed.

Lemma scan_never_closes (rest : str) (j : Z) (stack : list Z) :
  (forall n, (n <= List.length rest)%nat ->
             len stack + depth (firstn n rest) <> 0) ->
  scan rest j stack = Ok None.
Proof.
  revert j stack. induction rest as [|c rest IH]; intros j stack H; simpl;
    [reflexivity|].
  assert (H0 : len stack <> 0).
  { specialize (H 0%nat). simpl in H. intros E. apply H; [lia|]. lia. }
  assert (HS : forall n, (n <= List.length rest)%nat ->
             len stack + ((if c =? lbrace then 1 else if c =? rbrace then -1 else 0)
                          + depth (firstn n rest)) <> 0).
  { intros n Hn. apply (H (S n)). simpl. lia. }
  destruct (c =? lbrace) eqn:El.
  - apply IH. intros n Hn. rewrite len_app. unfold len at 2. simpl.
    specialize (HS n Hn). lia.
  - destruct (c =? rbrace) eqn:Er.
    + pose proof (len_pos_nonempty _ H0) as Hne.
      rewrite pop_nonempty by exact Hne. unfold bind.
      pose proof (len_removelast _ Hne) as Hl.
      destruct (is_nil (removelast stack)) eqn:E.
      * apply is_nil_len in E. specialize (HS 0%nat). simpl in HS.
        exfalso. apply HS; lia.
      * apply IH. intros n Hn. specialize (HS n Hn). lia.
    + apply IH. intros n Hn. specialize (HS n Hn). lia.
Qed.

Lemma scan_closes (body post : str) (j : Z) (stack : list Z) :
  stack <> [] ->
  len stack + depth body = 0 ->
  (forall n, (n < List.length body)%nat ->
             len stack + depth (firstn n body) <> 0) ->
  scan (body ++ post) j stack = Ok (Some (j + len body)).
Proof.
  revert j stack. induction body as [|c body IH]; intros j stack Hne Hd H.
  - simpl in Hd. exfalso. destruct stack; [congruence|].
    rewrite len_cons in Hd. pose proof (len_nonneg stack). lia.
  - simpl in Hd.
    assert (HS : forall n, (n < List.length body)%nat ->
               len stack + ((if c =? lbrace then 1 else if c =? rbrace then -1 else 0)
                            + depth (firstn n body)) <> 0).
    { intros n Hn. apply (H (S n)). simpl. lia. }
    rewrite len_cons. cbn [scan app].
    destruct (c =? lbrace) eqn:El.
    + rewrite IH.
      * f_equal. f_equal. lia.
      * destruct stack; discriminate.
      * rewrite len_app. unfold len at 2. simpl. lia.
      * intros n Hn. rewrite len_app. unfold len at 2. simpl.
        specialize (HS n Hn). lia.
    + destruct (c =? rbrace) eqn:Er.
      * rewrite pop_nonempty by exact Hne. unfold bind.
        pose proof (len_removelast _ Hne) as Hl.
        destruct (is_nil (removelast stack)) eqn:E.
        -- apply is_nil_len in E.
           destruct body as [|c' body].
           ++ reflexivity.
           ++ exfalso. specialize (HS 0%nat). simpl in HS. apply HS; lia.
        -- rewrite IH.
           ++ f_equal. f_equal. lia.
           ++ intros E'. rewrite E' in E. discriminate.
           ++ lia.
           ++ intros n Hn. specialize (HS n Hn). lia.
      * rewrite IH; [f_equal; f_equal; lia|exact Hne|lia|].
        intros n Hn. specialize (HS n Hn). lia.
Qed.

(** The two decision procedures are sound. *)
Lemma open_throughout_sound (s : str) (d : Z) :
  open_throughout d s = true ->
  forall n, (n <= List.length s)%nat -> d + depth (firstn n s) <> 0.
Proof.
  revert d. induction s as [|c s IH]; intros d H n Hn; simpl in H;
    apply andb_true_iff in H as [Hd H]; apply negb_true_iff, Z.eqb_neq in Hd.
  - destruct n; simpl; lia.
  - destruct n as [|n]; simpl; [lia|].
    specialize (IH _ H n). simpl in Hn. lia.
Qed.

Lemma closes_last_sound (s : str) (d : Z) :
  closes_last d s = true ->
  d + depth s = 0 /\
  forall n, (n < List.length s)%nat -> d + depth (firstn n s) <> 0.
Proof.
  revert d. induction s as [|c s IH]; intros d H; simpl in H.
  - apply Z.eqb_eq in H. split; [simpl; lia|]. intros n Hn. simpl in Hn. lia.
  - apply andb_true_iff in H as [Hd H]. apply negb_true_iff, Z.eqb_neq in Hd.
    destruct (IH _ H) as [IH1 IH2]. split; [simpl; lia|].
    intros n Hn. destruct n as [|n]; simpl; [lia|].
    specialize (IH2 n). simpl in Hn. lia.
Qed.

Lemma never_closes_dec (rest : str) :
  open_throughout 1 rest = true -> never_closes rest.
Proof. intros H n Hn. now apply open_throughout_sound. Qed.

Lemma closes_at_end_dec (body : str) :
  closes_last 1 body = true -> closes_at_end body.
Proof. intros H. now apply closes_last_sound. Qed.

(** ** The extractor *)

Section ExtractorProperties.

Variable json_loads : str -> outcome value.
Variable print_error : exn -> outcome unit.

Lemma len_key : len key = len key_prefix + 1.
Proof. reflexivity. Qed.

(** Where the first marker is, the scan starts right after its brace. *)
Lemma extract_at (pre rest : str) :
  ~ occurs key pre ->
  extract_realestates json_loads print_error (pre ++ key ++ rest) =
  let* found := scan rest (len pre + len key) [lbrace] in
  match found with
  | None => Ok (JList [])
  | Some end_ =>
      try_except
        (let* data :=
           json_loads (slice (pre ++ key ++ rest) (len pre + len key_prefix) end_) in
         py_get data (lit "realEstates") (JList []))
        (fun e => let* _ := print_error e in Ok (JList []))
  end.
Proof.
  intros Hno. unfold extract_realestates.
  rewrite (str_find_first pre rest Hno). cbv zeta.
  pose proof (len_nonneg pre) as Hp.
  destruct (len pre =? -1) eqn:E; [apply Z.eqb_eq in E; lia|].
  replace (len pre + len key - 1 + 1) with (len pre + len key) by lia.
  rewrite (app_assoc pre key rest), <- (len_app pre key), slice_suffix.
  reflexivity.
Qed.

(** Where the handler's print returns, the extractor never raises,
    whatever the text and the decoder. *)
Lemma extract_never_raises (text : str) :
  (forall e, exists u, print_error e = Ok u) ->
  exists v, extract_realestates json_loads print_error text = Ok v.
Proof.
  intros Hprint. unfold extract_realestates. cbv zeta.
  destruct (str_find text key =? -1); [eauto|].
  destruct (scan_ok (slice text (str_find text key + len key - 1 + 1) (len text))
              (str_find text key + len key - 1 + 1) [lbrace]) as [r ->];
    [discriminate|].
  unfold bind at 1. destruct r as [e|]; [|eauto].
  destruct (json_loads _) as [data|e']; cbn [bind try_except].
  - destruct (py_get data _ _) as [v|e']; cbn [try_except]; [eauto|].
    destruct (Hprint e') as [u ->]. cbn [bind]. eauto.
  - destruct (Hprint e') as [u ->]. cbn [bind]. eauto.
Qed.

(** A balanced block that decodes to an object yields the object's
    [realEstates] entry as it is, or an empty list without one. *)
Lemma extract_selects (pre body post : str) (D : dict) :
  ~ occurs key pre ->
  closes_at_end body ->
  json_loads (lbrace :: body) = Ok (JObj D) ->
  extract_realestates json_loads print_error (pre ++ key_prefix ++ (lbrace :: body) ++ post) =
  Ok (dict_get_default (lit "realEstates") (JList []) D).
Proof.
  intros Hno [Hd Hopen] Hloads.
  assert (Etext : pre ++ key_prefix ++ (lbrace :: body) ++ post =
                  pre ++ key ++ body ++ post).
  { unfold key. simpl lit. rewrite <- !app_assoc. reflexivity. }
  rewrite Etext, extract_at by exact Hno.
  rewrite scan_closes; [|discriminate|exact Hd|exact Hopen].
  unfold bind at 1. rewrite <- Etext.
  replace (len pre + len key + len body)
    with (len (pre ++ key_prefix) + len (lbrace :: body))
    by (rewrite len_app, len_cons, len_key; lia).
  rewrite <- (len_app pre key_prefix).
  rewrite (app_assoc pre key_prefix), slice_middle, Hloads.
  simpl. unfold dict_get_default.
  destruct (dict_get _ D); reflexivity.
Qed.

(** C2.  When the marker does not occur in the page text, and when its
    first occurrence is followed by braces that never bring the depth
    counter back to zero before the end of the text, the extractor
    returns an empty list; in neither case does it raise. *)
Theorem extract_without_payload (text : str) :
  (~ occurs key text ->
   extract_realestates json_loads print_error text = Ok (JList [])) /\
  (forall pre rest,
      text = pre ++ key ++ rest -> ~ occurs key pre -> never_closes rest ->
      extract_realestates json_loads print_error text = Ok (JList [])).
Proof.
  split.
  - intros Hno. unfold extract_realestates. cbv zeta.
    apply str_find_absent in Hno. rewrite Hno. reflexivity.
  - intros pre rest -> Hno Hopen.
    rewrite extract_at by exact Hno.
    rewrite scan_never_closes; [reflexivity|].
    intros n Hn. apply (Hopen n Hn).
Qed.

(** C1, amended.  Let the page text be noise, then the marker prefix,
    then a serialization that starts with a brace, then noise.  If the
    marker does not occur in the leading noise, if the braces of the
    serialization bring the depth counter back to zero at its last
    character and not before, and if the serialization decodes to an
    object whose [realEstates] entry is a list, then the extractor
    returns exactly that list. *)
Theorem extract_round_trip (pre body post : str) (D : dict) (l : list value) :
  ~ occurs key pre ->
  closes_at_end body ->
  json_loads (lbrace :: body) = Ok (JObj D) ->
  dict_get (lit "realEstates") D = Some (JList l) ->
  extract_realestates json_loads print_error (pre ++ key_prefix ++ (lbrace :: body) ++ post) =
  Ok (JList l).
Proof.
  intros Hno Hclose Hloads Hget.
  rewrite (extract_selects pre body post D Hno Hclose Hloads).
  unfold dict_get_default. rewrite Hget. reflexivity.
Qed.

End ExtractorProperties.

Lemma absent_dec (k text : str) : str_find text k = -1 -> ~ occurs k text.
Proof. apply str_find_absent. Qed.

Lemma extract_without_payload_witness :
  extract_realestates JsonRef.loads quiet_print page_no_marker = Ok (JList []) /\
  extract_realestates JsonRef.loads quiet_print (page_cut_head ++ key ++ page_cut_tail)
  = Ok (JList []).
Proof.
  split.
  - apply (proj1 (extract_without_payload JsonRef.loads quiet_print page_no_marker)).
    apply absent_dec. vm_compute. reflexivity.
  - apply (proj2 (extract_without_payload JsonRef.loads quiet_print
                    (page_cut_head ++ key ++ page_cut_tail))
             page_cut_head page_cut_tail).
    + reflexivity.
    + apply absent_dec. vm_compute. reflexivity.
    + apply never_closes_dec. vm_compute. reflexivity.
Defined.

Lemma extract_round_trip_witness :
  extract_realestates JsonRef.loads quiet_print
    (noise_before ++ key_prefix ++ (lbrace :: payload_body) ++ noise_after)
  = Ok (JList [JObj [(lit "id", JInt 7); (lit "title", JStr (lit "Villa"))];
               JObj [(lit "id", JInt 8)]]).
Proof.
  apply (extract_round_trip JsonRef.loads quiet_print noise_before payload_body noise_after
           payload_dict).
  - apply absent_dec. vm_compute. reflexivity.
  - apply closes_at_end_dec. vm_compute. reflexivity.
  - vm_compute. reflexivity.
  - vm_compute. reflexivity.
Defined.

(** C1, as stated, fails.  A serialization that decodes to an object
    whose [realEstates] list has one record is not recovered when a
    string in it holds a brace: the scan stops at the brace inside the
    title and the extractor returns an empty list.  And the two records
    of a well-formed payload are not recovered when the noise before it
    holds the marker: the extractor reads the block after the first
    marker. *)
Lemma extract_round_trip_counterexample :
  (JsonRef.loads brace_in_string
   = Ok (JObj [(lit "realEstates", JList [JObj [(lit "title", JStr (lit "}"))]])]) /\
   extract_realestates JsonRef.loads quiet_print
     (lit "<script>" ++ key_prefix ++ brace_in_string ++ lit "</script>")
   = Ok (JList [])) /\
  (JsonRef.loads (lbrace :: payload_body) = Ok (JObj payload_dict) /\
   extract_realestates JsonRef.loads quiet_print
     (noise_with_marker ++ key_prefix ++ (lbrace :: payload_body) ++ noise_after)
   = Ok (JList [])).
Proof. repeat split; vm_compute; reflexivity. Qed.

(** ** Dictionaries *)

Lemma dict_get_set_same (k : str) (v : value) (d : dict) :
  dict_get k (dict_set k v d) = Some v.
Proof.
  induction d as [|[k' v'] d IH]; simpl.
  - now rewrite str_eqb_refl.
  - destruct (str_eqb k k') eqn:E; simpl; rewrite E; [reflexivity|exact IH].
Qed.

Lemma dict_get_set_other (k k' : str) (v : value) (d : dict) :
  str_eqb k k' = false -> dict_get k (dict_set k' v d) = dict_get k d.
Proof.
  intros Hk. induction d as [|[k0 v0] d IH]; simpl.
  - now rewrite Hk.
  - destruct (str_eqb k' k0) eqn:E; simpl.
    + apply str_eqb_eq in E. subst k0. now rewrite Hk.
    + now rewrite IH.
Qed.

(** ** The normaliser *)

Lemma decode_text_str (s : str) :
  decode_text (JStr s) = Ok (JStr (redecode s)).
Proof.
  unfold decode_text, redecode. destruct s as [|c s]; [reflexivity|].
  cbn [truthy is_nil negb py_encode_latin1].
  destruct (latin1_encode (c :: s)) as [bs|e]; [|reflexivity].
  cbn [bind]. destruct (utf8_decode bs); reflexivity.
Qed.

(** [decode_text] has no failure path. *)
Lemma decode_text_total (v : value) : exists v', decode_text v = Ok v'.
Proof.
  unfold decode_text. destruct (negb (truthy v)); [eauto|].
  destruct (py_encode_latin1 v) as [bs|e]; cbn [bind try_except]; [|eauto].
  destruct (utf8_decode bs); cbn [bind try_except]; eauto.
Qed.

(** On a value that is true and not a string it gives the value back. *)
Lemma decode_text_other (v : value) :
  truthy v = true -> is_str v = false -> decode_text v = Ok v.
Proof.
  intros Ht Hs. unfold decode_text. rewrite Ht.
  destruct v; try discriminate; reflexivity.
Qed.

Lemma decode_field_eq (res : dict) (k : str) :
  decode_field res k =
  Ok match dict_get k res with
     | Some v => if is_none v then res else dict_set k (decoded_value v) res
     | None => res
     end.
Proof.
  unfold decode_field, dict_mem, dict_item, decoded_value.
  destruct (dict_get k res) as [v|]; [|reflexivity].
  cbn [bind]. destruct (is_none v); [reflexivity|]. cbn [negb].
  destruct (decode_text_total v) as [v' ->]. reflexivity.
Qed.

Lemma decoded_value_none (v : value) :
  is_none v = true -> decoded_value v = v.
Proof. unfold decoded_value. now intros ->. Qed.

(** The loop over distinct keys re-decodes what each of them holds and
    leaves every other key alone. *)
Lemma decode_fields (ks : list str) :
  NoDup ks ->
  forall res, exists r,
    for_each decode_field ks res = Ok r /\
    forall k, dict_get k r =
              if existsb (str_eqb k) ks
              then option_map decoded_value (dict_get k res)
              else dict_get k res.
Proof.
  induction 1 as [|k0 ks Hnin Hnd IH]; intros res.
  - exists res. split; reflexivity.
  - cbn [for_each]. rewrite decode_field_eq. cbn [bind].
    set (res1 := match dict_get k0 res with
                 | Some v => if is_none v then res else dict_set k0 (decoded_value v) res
                 | None => res
                 end).
    assert (H1 : forall k, dict_get k res1 =
                           if str_eqb k k0
                           then option_map decoded_value (dict_get k res)
                           else dict_get k res).
    { intros k. subst res1. destruct (str_eqb k k0) eqn:E.
      - apply str_eqb_eq in E. subst k.
        destruct (dict_get k0 res) as [v|] eqn:Ev; [|now rewrite Ev].
        destruct (is_none v) eqn:En.
        + rewrite Ev. simpl. now rewrite decoded_value_none.
        + now rewrite dict_get_set_same.
      - destruct (dict_get k0 res) as [v|]; [|reflexivity].
        destruct (is_none v); [reflexivity|].
        now apply dict_get_set_other. }
    destruct (IH res1) as [r [Hr Hget]]. exists r. split; [exact Hr|].
    intros k. rewrite Hget, H1. cbn [existsb].
    destruct (str_eqb k k0) eqn:E; cbn [orb]; [|reflexivity].
    apply str_eqb_eq in E. subst k.
    destruct (existsb (str_eqb k0) ks) eqn:Ex; [|reflexivity].
    exfalso. apply Hnin. apply existsb_exists in Ex as [x [Hin Hx]].
    apply str_eqb_eq in Hx. now subst x.
Qed.

Lemma text_fields_nodup : NoDup text_fields.
Proof.
  unfold text_fields.
  repeat (constructor; [simpl; intros H; repeat destruct H as [H|H]; try discriminate H; exact H|]).
  constructor.
Qed.

Lemma format_estate_eq (estate : dict) :
  format_estate estate =
  let* r := for_each decode_field text_fields estate in
  let* urls := image_urls_of r in
  let res := dict_set (lit "image_urls") (JList urls) r in
  let* joined := types_of res in
  Ok (dict_set (lit "types") (JStr joined) res).
Proof.
  unfold format_estate, image_urls_of, types_of. cbv zeta.
  destruct (for_each decode_field text_fields estate) as [r|e]; [|reflexivity].
  cbn [bind].
  destruct (py_iter (dict_get_default (lit "images") (JList []) r)) as [imgs|e];
    [|reflexivity].
  cbn [bind]. destruct (comprehension image_url imgs) as [urls|e]; [|reflexivity].
  cbn [bind].
  destruct (truthy _ && is_list _); [|reflexivity].
  destruct (py_iter _) as [ts|e]; [|reflexivity]. cbn [bind].
  destruct (comprehension type_name ts) as [names|e]; [|reflexivity]. cbn [bind].
  destruct (str_join (lit ", ") names); reflexivity.
Qed.

(** *** Comprehensions *)

Lemma Ok_inj {A} (a b : A) : Ok a = Ok b -> a = b.
Proof. now intros [= ->]. Qed.

Lemma comprehension_inv {A B} (step : A -> outcome (list B)) (g : A -> list B)
      (P : list B -> Prop) (l : list A) (r : list B) :
  (forall a b, P (a ++ b) -> P a /\ P b) ->
  (forall x ys, step x = Ok ys -> P ys -> ys = g x) ->
  comprehension step l = Ok r -> P r -> r = flat_map g l.
Proof.
  intros Hsplit Hstep. revert r. induction l as [|x l IH]; intros r H HP.
  - simpl in H. now injection H as <-.
  - cbn [comprehension] in H.
    destruct (step x) as [ys|e] eqn:Ex; [|discriminate]. cbn [bind] in H.
    destruct (comprehension step l) as [rest|e]; [|discriminate].
    cbn [bind] in H. injection H as <-.
    destruct (Hsplit _ _ HP) as [Pys Prest].
    cbn [flat_map]. rewrite <- (Hstep x ys Ex Pys), <- (IH rest eq_refl Prest).
    reflexivity.
Qed.

Lemma comprehension_ok {A B} (step : A -> outcome (list B)) (g : A -> list B)
      (l : list A) :
  (forall x, In x l -> step x = Ok (g x)) ->
  comprehension step l = Ok (flat_map g l).
Proof.
  induction l as [|x l IH]; intros H; [reflexivity|].
  cbn [comprehension flat_map].
  rewrite (H x (or_introl eq_refl)). cbn [bind].
  rewrite IH by (intros y Hy; apply H; now right). reflexivity.
Qed.

Lemma flat_map_map {A B C} (f : B -> C) (h : A -> list B) (l : list A) :
  flat_map (fun x => map f (h x)) l = map f (flat_map h l).
Proof.
  induction l as [|x l IH]; [reflexivity|].
  cbn [flat_map]. now rewrite map_app, IH.
Qed.

Lemma truthy_str (s : str) : truthy (JStr s) = negb (is_nil s).
Proof. reflexivity. Qed.

(** A step of the [image_urls] comprehension that returns has added the
    URL of a non-empty file name, or nothing. *)
Lemma image_url_inv (img : value) (ys : list value) :
  image_url img = Ok ys -> ys = map JStr (image_step img).
Proof.
  unfold image_url, image_step, text_under.
  destruct img as [| | | | |l|d]; try discriminate.
  unfold py_get, py_item, dict_item.
  destruct (dict_get (lit "file_name") d) as [v|]; cbn [bind].
  - destruct (truthy v) eqn:T.
    + destruct v as [| | | |f| |]; try discriminate.
      rewrite truthy_str in T. apply negb_true_iff in T. rewrite T.
      cbn [str_add bind]. intros H. apply Ok_inj in H. subst ys.
      now rewrite <- app_assoc.
    + intros H. apply Ok_inj in H. subst ys.
      destruct v as [| | | |f| |]; try reflexivity.
      rewrite truthy_str in T. apply negb_false_iff in T. now rewrite T.
  - cbn [truthy]. intros H. apply Ok_inj in H. now subst ys.
Qed.

Lemma image_url_ok (img : value) :
  entry_ok (lit "file_name") img = true ->
  image_url img = Ok (map JStr (image_step img)).
Proof.
  unfold entry_ok, image_url, image_step, text_under.
  destruct img as [| | | | |l|d]; try discriminate.
  unfold py_get, py_item, dict_item.
  destruct (dict_get (lit "file_name") d) as [v|]; cbn [bind]; [|reflexivity].
  intros H. destruct (truthy v) eqn:T.
  - cbn [negb orb] in H. destruct v as [| | | |f| |]; try discriminate.
    rewrite truthy_str in T. apply negb_true_iff in T. rewrite T.
    cbn [str_add bind map]. now rewrite <- app_assoc.
  - destruct v as [| | | |f| |]; try reflexivity.
    rewrite truthy_str in T. apply negb_false_iff in T. now rewrite T.
Qed.

(** A step of the generator of [types] that returns a string has given
    the re-decoded non-empty name, or nothing. *)
Lemma type_name_inv (t : value) (ys : list value) :
  type_name t = Ok ys -> forallb is_str ys = true ->
  ys = map JStr (type_step t).
Proof.
  unfold type_name, type_step, text_under.
  destruct t as [| | | | |l|d]; try discriminate.
  unfold py_get.
  destruct (dict_get (lit "name") d) as [v|]; cbn [bind].
  - destruct (truthy v) eqn:T.
    + destruct (is_str v) eqn:S.
      * destruct v as [| | | |n| |]; try discriminate.
        rewrite decode_text_str. cbn [bind].
        rewrite truthy_str in T. apply negb_true_iff in T. rewrite T.
        intros H _. apply Ok_inj in H. now subst ys.
      * rewrite (decode_text_other v T S). cbn [bind].
        intros H Hall. apply Ok_inj in H. subst ys. cbn [forallb] in Hall.
        rewrite S in Hall. discriminate.
    + intros H _. apply Ok_inj in H. subst ys.
      destruct v as [| | | |n| |]; try reflexivity.
      rewrite truthy_str in T. apply negb_false_iff in T. now rewrite T.
  - cbn [truthy]. intros H _. apply Ok_inj in H. now subst ys.
Qed.

Lemma type_name_ok (t : value) :
  entry_ok (lit "name") t = true ->
  type_name t = Ok (map JStr (type_step t)).
Proof.
  unfold entry_ok, type_name, type_step, text_under.
  destruct t as [| | | | |l|d]; try discriminate.
  unfold py_get.
  destruct (dict_get (lit "name") d) as [v|]; cbn [bind]; [|reflexivity].
  intros H. destruct (truthy v) eqn:T.
  - cbn [negb orb] in H. destruct v as [| | | |n| |]; try discriminate.
    rewrite decode_text_str. cbn [bind].
    rewrite truthy_str in T. apply negb_true_iff in T. now rewrite T.
  - destruct v as [| | | |n| |]; try reflexivity.
    rewrite truthy_str in T. apply negb_false_iff in T. now rewrite T.
Qed.

Lemma str_join_all_str (sep : str) (items : list value) (j : str) :
  str_join sep items = Ok j -> forallb is_str items = true.
Proof.
  revert j. induction items as [|x items IH]; intros j H; [reflexivity|].
  cbn [str_join] in H. destruct x as [| | | |s| |]; try discriminate.
  cbn [forallb is_str andb].
  destruct (is_nil items) eqn:E.
  - destruct items; [reflexivity|discriminate].
  - destruct (str_join sep items) as [t|e]; [|discriminate].
    now apply (IH t).
Qed.

Lemma str_join_strs (sep : str) (l : list str) :
  str_join sep (map JStr l) = Ok (join_strs sep l).
Proof.
  induction l as [|s l IH]; [reflexivity|].
  cbn [map str_join join_strs].
  destruct l as [|s' l]; [reflexivity|].
  cbn [map is_nil] in *. rewrite IH. reflexivity.
Qed.

Lemma forallb_is_str_app (a b : list value) :
  forallb is_str (a ++ b) = true ->
  forallb is_str a = true /\ forallb is_str b = true.
Proof. rewrite forallb_app. apply andb_true_iff. Qed.

(** *** The derived entries *)

Lemma image_urls_of_get (r e : dict) :
  dict_get (lit "images") r = dict_get (lit "images") e ->
  image_urls_of r = image_urls_of e.
Proof. unfold image_urls_of, dict_get_default. now intros ->. Qed.

Lemma types_of_get (r e : dict) :
  dict_get (lit "types") r = dict_get (lit "types") e ->
  types_of r = types_of e.
Proof. unfold types_of, dict_get_default. now intros ->. Qed.

Lemma image_urls_of_strings (e : dict) (urls : list value) :
  image_urls_of e = Ok urls -> exists us, urls = map JStr us.
Proof.
  unfold image_urls_of.
  destruct (py_iter _) as [elems|x]; [|discriminate]. cbn [bind]. intros H.
  exists (flat_map image_step elems). rewrite <- flat_map_map.
  apply (comprehension_inv image_url _ (fun _ => True) elems urls);
    [intros; split; exact I | intros x ys Hx _; now apply image_url_inv
    | exact H | exact I].
Qed.

Lemma image_urls_of_inv (e : dict) (urls : list value) :
  image_urls_of e = Ok urls ->
  match dict_get (lit "images") e with
  | None => urls = []
  | Some (JList imgs) => urls = map JStr (image_urls_spec imgs)
  | Some _ => True
  end.
Proof.
  unfold image_urls_of, dict_get_default, image_urls_spec.
  destruct (dict_get (lit "images") e) as [v|].
  - destruct v as [| | | | |imgs|d]; try exact (fun _ => I).
    cbn [py_iter bind]. intros H. rewrite <- flat_map_map.
    apply (comprehension_inv image_url _ (fun _ => True) imgs urls);
      [intros; split; exact I | intros x ys Hx _; now apply image_url_inv
      | exact H | exact I].
  - cbn [py_iter bind comprehension]. intros H. now apply Ok_inj in H.
Qed.

Lemma image_urls_of_ok (e : dict) :
  images_ok e = true -> exists urls, image_urls_of e = Ok urls.
Proof.
  unfold images_ok, image_urls_of, dict_get_default.
  destruct (dict_get (lit "images") e) as [v|].
  - destruct v as [| | | | |imgs|d]; try discriminate.
    intros H. cbn [py_iter bind]. rewrite forallb_forall in H.
    eexists. apply (comprehension_ok image_url (fun x => map JStr (image_step x))).
    intros x Hx. apply image_url_ok, H, Hx.
  - intros _. cbn [py_iter bind comprehension]. eauto.
Qed.

Lemma types_of_inv (e : dict) (joined : str) :
  types_of e = Ok joined ->
  match dict_get (lit "types") e with
  | Some (JList ts) => joined = types_spec ts
  | _ => joined = []
  end.
Proof.
  unfold types_of, dict_get_default, types_spec, type_names_spec.
  assert (Hnil : Ok [] = Ok joined -> joined = [])
    by (intros H; now apply Ok_inj in H).
  destruct (dict_get (lit "types") e) as [v|].
  - destruct v as [| | | | |ts|d]; cbn [is_list andb truthy];
      rewrite ?andb_false_r; try exact Hnil.
    destruct ts as [|t ts]; [exact Hnil|].
    cbn [is_nil negb andb py_iter bind].
    destruct (comprehension type_name (t :: ts)) as [names|x] eqn:Ec;
      [|discriminate].
    cbn [bind]. intros Hj.
    pose proof (str_join_all_str _ _ _ Hj) as Hall.
    assert (Hn : names = flat_map (fun x => map JStr (type_step x)) (t :: ts)).
    { apply (comprehension_inv type_name _ (fun l => forallb is_str l = true)
               (t :: ts) names);
        [apply forallb_is_str_app | apply type_name_inv | exact Ec | exact Hall]. }
    rewrite flat_map_map in Hn. rewrite Hn, str_join_strs in Hj.
    now apply Ok_inj in Hj.
  - exact Hnil.
Qed.

Lemma types_of_ok (e : dict) :
  types_ok e = true -> exists joined, types_of e = Ok joined.
Proof.
  unfold types_ok, types_of, dict_get_default.
  destruct (dict_get (lit "types") e) as [v|];
    [|intros _; exists []; reflexivity].
  destruct v as [| | | | |ts|d]; cbn [is_list andb truthy];
    rewrite ?andb_false_r; eauto.
  intros H. destruct (negb (is_nil ts)); cbn [andb]; [|eauto].
  cbn [py_iter bind]. rewrite forallb_forall in H.
  rewrite (comprehension_ok type_name (fun x => map JStr (type_step x)))
    by (intros x Hx; apply type_name_ok, H, Hx).
  cbn [bind]. rewrite flat_map_map, str_join_strs. eauto.
Qed.

Lemma field_images : existsb (str_eqb (lit "images")) text_fields = false.
Proof. reflexivity. Qed.

Lemma field_types : existsb (str_eqb (lit "types")) text_fields = false.
Proof. reflexivity. Qed.

(** What a returning call of [format_estate] has done. *)
Lemma format_estate_inv (estate res : dict) :
  format_estate estate = Ok res ->
  exists r urls joined,
    (forall k, dict_get k r =
               if existsb (str_eqb k) text_fields
               then option_map decoded_value (dict_get k estate)
               else dict_get k estate) /\
    image_urls_of estate = Ok urls /\
    types_of estate = Ok joined /\
    res = dict_set (lit "types") (JStr joined)
            (dict_set (lit "image_urls") (JList urls) r).
Proof.
  rewrite format_estate_eq.
  destruct (decode_fields text_fields text_fields_nodup estate) as [r [-> Hr]].
  cbn [bind]. cbv zeta.
  assert (Hi : image_urls_of r = image_urls_of estate).
  { apply image_urls_of_get. now rewrite Hr, field_images. }
  rewrite Hi. destruct (image_urls_of estate) as [urls|x]; [|discriminate].
  cbn [bind].
  assert (Ht : types_of (dict_set (lit "image_urls") (JList urls) r)
               = types_of estate).
  { apply types_of_get. rewrite dict_get_set_other by reflexivity.
    now rewrite Hr, field_types. }
  rewrite Ht. destruct (types_of estate) as [joined|x]; [|discriminate].
  cbn [bind]. intros H. apply Ok_inj in H.
  exists r, urls, joined. repeat split; [exact Hr|now symmetry].
Qed.

Lemma format_estate_image_urls (estate res : dict) :
  format_estate estate = Ok res ->
  exists urls, image_urls_of estate = Ok urls /\
               dict_get (lit "image_urls") res = Some (JList urls).
Proof.
  intros H. destruct (format_estate_inv _ _ H) as (r & urls & joined & _ & Hu & _ & ->).
  exists urls. split; [exact Hu|].
  rewrite dict_get_set_other by reflexivity. apply dict_get_set_same.
Qed.

Lemma format_estate_types (estate res : dict) :
  format_estate estate = Ok res ->
  exists joined, types_of estate = Ok joined /\
                 dict_get (lit "types") res = Some (JStr joined).
Proof.
  intros H. destruct (format_estate_inv _ _ H) as (r & urls & joined & _ & _ & Ht & ->).
  exists joined. split; [exact Ht|]. apply dict_get_set_same.
Qed.

(** *** Latin-1 *)

Lemma latin1_encode_id (s : str) (bs : list Z) :
  latin1_encode s = Ok bs -> bs = s /\ Forall (fun c => 0 <= c <= 255) s.
Proof.
  revert bs. induction s as [|c s IH]; intros bs H; cbn [latin1_encode] in H.
  - apply Ok_inj in H. now subst bs.
  - destruct ((0 <=? c) && (c <=? 255)) eqn:E; [|discriminate].
    destruct (latin1_encode s) as [bs'|x]; [|discriminate].
    cbn [bind] in H. apply Ok_inj in H. subst bs.
    destruct (IH bs' eq_refl) as [-> Hall].
    split; [reflexivity|]. constructor; [lia|exact Hall].
Qed.

Lemma latin1_encode_above (s : str) :
  Exists (fun c => 255 < c) s -> exists e, latin1_encode s = Raise e.
Proof.
  intros H. destruct (latin1_encode s) as [bs|e] eqn:E; [|eauto].
  exfalso. apply latin1_encode_id in E as [_ Hall].
  apply Exists_exists in H as [c [Hin Hc]].
  rewrite Forall_forall in Hall. specialize (Hall c Hin). lia.
Qed.

(** *** The claims about [format_estate] *)

(** C5.  For each of the four text fields that holds a string in the
    input, the output holds under the same key the text whose code points
    were taken as single bytes and decoded as UTF-8; when a code point is
    above 255 or the bytes are not valid UTF-8, it holds the input text
    unchanged. *)
Theorem format_estate_redecodes (estate res : dict) (k s : str) :
  In k text_fields ->
  dict_get k estate = Some (JStr s) ->
  format_estate estate = Ok res ->
  dict_get k res = Some (JStr (redecode s)) /\
  (forall bs t, latin1_encode s = Ok bs -> utf8_decode bs = Ok t ->
                dict_get k res = Some (JStr t)) /\
  (Exists (fun c => 255 < c) s \/
   (exists bs e, latin1_encode s = Ok bs /\ utf8_decode bs = Raise e) ->
   dict_get k res = Some (JStr s)).
Proof.
  intros Hk Hget H.
  destruct (format_estate_inv _ _ H) as (r & urls & joined & Hr & _ & _ & ->).
  assert (Hres : dict_get k (dict_set (lit "types") (JStr joined)
                               (dict_set (lit "image_urls") (JList urls) r))
                 = Some (JStr (redecode s))).
  { assert (Hin : existsb (str_eqb k) text_fields = true).
    { apply existsb_exists. exists k. split; [exact Hk|apply str_eqb_refl]. }
    assert (Hne : str_eqb k (lit "types") = false /\
                  str_eqb k (lit "image_urls") = false).
    { unfold text_fields in Hk. simpl in Hk.
      repeat destruct Hk as [Hk|Hk]; try contradiction; subst k;
        split; reflexivity. }
    destruct Hne as [Ht Hi].
    rewrite !dict_get_set_other by assumption.
    rewrite Hr, Hin, Hget. cbn [option_map]. f_equal.
    unfold decoded_value. cbn [is_none]. now rewrite decode_text_str. }
  split; [exact Hres|]. split.
  - intros bs t Hl Hu. rewrite Hres. unfold redecode. now rewrite Hl, Hu.
  - intros [Habove|(bs & e & Hl & Hu)]; rewrite Hres; unfold redecode.
    + destruct (latin1_encode_above s Habove) as [e ->]. reflexivity.
    + now rewrite Hl, Hu.
Qed.

Lemma format_estate_redecodes_witness :
  dict_get (lit "title") sample_normalized = Some (JStr [1055; 1088; 1080]).
Proof.
  apply (format_estate_redecodes sample_estate sample_normalized (lit "title")
           [208; 159; 209; 128; 208; 184]).
  - left. reflexivity.
  - reflexivity.
  - vm_compute. reflexivity.
Defined.

(** C6.  When [format_estate] returns, [image_urls] holds, for a record
    whose [images] is a list, the URL [BASE_IMAGE_URL + file_name +
    "&w=2048&q=75"] of each entry with a non-empty file name, in input
    order, and nothing for the other entries; for a record without
    [images] it holds the empty list. *)
Theorem format_estate_image_urls_spec (estate res : dict) :
  format_estate estate = Ok res ->
  (dict_get (lit "images") estate = None ->
   dict_get (lit "image_urls") res = Some (JList [])) /\
  (forall imgs, dict_get (lit "images") estate = Some (JList imgs) ->
                dict_get (lit "image_urls") res
                = Some (JList (map JStr (image_urls_spec imgs)))).
Proof.
  intros H. destruct (format_estate_image_urls _ _ H) as [urls [Hu ->]].
  apply image_urls_of_inv in Hu. split.
  - intros E. rewrite E in Hu. now subst urls.
  - intros imgs E. rewrite E in Hu. now subst urls.
Qed.

Lemma format_estate_image_urls_spec_witness :
  dict_get (lit "image_urls") sample_normalized
  = Some (JList [JStr (BASE_IMAGE_URL ++ lit "a.jpg" ++ lit "&w=2048&q=75")]).
Proof.
  apply (proj2 (format_estate_image_urls_spec sample_estate sample_normalized
                  ltac:(vm_compute; reflexivity))
           [JObj [(lit "file_name", JStr (lit "a.jpg"))];
            JObj [(lit "file_name", JStr [])]]).
  reflexivity.
Defined.

(** C7.  When [format_estate] returns, [types] holds, for a record whose
    [types] is a list, the re-decoded non-empty names of its entries
    joined by a comma and a space, and the empty string for a record
    whose [types] is absent or is anything but a list. *)
Theorem format_estate_types_spec (estate res : dict) :
  format_estate estate = Ok res ->
  (forall ts, dict_get (lit "types") estate = Some (JList ts) ->
              dict_get (lit "types") res = Some (JStr (types_spec ts))) /\
  (forall v, dict_get (lit "types") estate = Some v -> is_list v = false ->
             dict_get (lit "types") res = Some (JStr [])) /\
  (dict_get (lit "types") estate = None ->
   dict_get (lit "types") res = Some (JStr [])).
Proof.
  intros H. destruct (format_estate_types _ _ H) as [joined [Ht ->]].
  apply types_of_inv in Ht. repeat split.
  - intros ts E. rewrite E in Ht. now subst joined.
  - intros v E Hl. rewrite E in Ht.
    destruct v; try discriminate; now subst joined.
  - intros E. rewrite E in Ht. now subst joined.
Qed.

Lemma format_estate_types_spec_witness :
  dict_get (lit "types") sample_normalized = Some (JStr (lit "Villa, Condo")).
Proof.
  apply (proj1 (format_estate_types_spec sample_estate sample_normalized
                  ltac:(vm_compute; reflexivity))
           [JObj [(lit "name", JStr (lit "Villa"))];
            JObj [(lit "name", JStr (lit "Condo"))];
            JObj [(lit "name", JStr [])]]).
  reflexivity.
Defined.

(** When the comprehension returns, its list is the derived one: for
    an [images] that is no list it can only have walked over nothing. *)
Lemma image_urls_of_derived (e : dict) (urls : list value) :
  image_urls_of e = Ok urls -> urls = map JStr (derived_urls e).
Proof.
  intros H. pose proof (image_urls_of_inv e urls H) as Hinv.
  unfold derived_urls. unfold image_urls_of, dict_get_default in H.
  destruct (dict_get (lit "images") e) as [v|]; [|exact Hinv].
  destruct v as [| | | |s|imgs|d]; try discriminate H; try exact Hinv.
  - destruct s as [|c s]; [|discriminate H].
    cbn [py_iter map bind comprehension] in H. apply Ok_inj in H. now subst urls.
  - destruct d as [|[k0 v0] d]; [|discriminate H].
    cbn [py_iter map bind comprehension] in H. apply Ok_inj in H. now subst urls.
Qed.

(** C10.  When [format_estate] returns, the record it returns holds
    under [image_urls] the list of URL strings derived from the input's
    [images], and under [types] the string derived from the input's
    [types]: both keys are always there, and whatever the input held
    under them is overwritten by these derived values. *)
Theorem format_estate_derived_keys (estate res : dict) :
  format_estate estate = Ok res ->
  dict_get (lit "image_urls") res
  = Some (JList (map JStr (derived_urls estate))) /\
  dict_get (lit "types") res = Some (JStr (derived_types estate)).
Proof.
  intros H.
  destruct (format_estate_image_urls _ _ H) as [urls [Hu Hgu]].
  destruct (format_estate_types _ _ H) as [joined [Ht Hgt]].
  apply image_urls_of_derived in Hu. subst urls.
  apply types_of_inv in Ht. split; [exact Hgu|].
  rewrite Hgt. f_equal. f_equal. unfold derived_types.
  destruct (dict_get (lit "types") estate) as [v|]; [|exact Ht].
  destruct v; exact Ht.
Qed.

Lemma format_estate_derived_keys_witness :
  dict_get (lit "image_urls") sample_estate = Some (JStr (lit "stale")) /\
  dict_get (lit "image_urls") sample_normalized
  = Some (JList [JStr (BASE_IMAGE_URL ++ lit "a.jpg" ++ lit "&w=2048&q=75")]) /\
  dict_get (lit "types") sample_normalized = Some (JStr (lit "Villa, Condo")).
Proof.
  split; [reflexivity|].
  exact (format_estate_derived_keys sample_estate sample_normalized
           ltac:(vm_compute; reflexivity)).
Defined.

(** C4, amended.  On a record whose [images] is absent or a list of
    mappings that hold under [file_name] nothing, a false value or a
    string, and whose [types], if a list, is a list of mappings that hold
    under [name] nothing, a false value or a string, [format_estate]
    returns a record and raises nothing. *)
Theorem format_estate_total (estate : dict) :
  images_ok estate = true ->
  types_ok estate = true ->
  exists res, format_estate estate = Ok res.
Proof.
  intros Hi Ht. rewrite format_estate_eq.
  destruct (decode_fields text_fields text_fields_nodup estate) as [r [-> Hr]].
  cbn [bind]. cbv zeta.
  rewrite (image_urls_of_get r estate) by (now rewrite Hr, field_images).
  destruct (image_urls_of_ok _ Hi) as [urls ->]. cbn [bind].
  rewrite (types_of_get _ estate)
    by (rewrite dict_get_set_other by reflexivity; now rewrite Hr, field_types).
  destruct (types_of_ok _ Ht) as [joined ->]. cbn [bind]. eauto.
Qed.

Lemma format_estate_total_witness :
  exists res, format_estate sample_estate = Ok res.
Proof.
  apply (format_estate_total sample_estate); vm_compute; reflexivity.
Defined.

(** C4, as stated, fails: a [types] list whose entry is a string, not a
    mapping, makes [format_estate] raise [AttributeError]. *)
Lemma format_estate_total_counterexample :
  format_estate estate_types_of_strings = Raise AttributeError.
Proof. vm_compute. reflexivity. Qed.

(** The examples of the specification. *)
Example image_urls_of_no_images :
  image_urls_of [(lit "images", JList [])] = Ok [].
Proof. reflexivity. Qed.

Example types_of_text :
  format_estate estate_types_text
  = Ok [(lit "id", JInt 8); (lit "types", JStr []); (lit "image_urls", JList [])].
Proof. vm_compute. reflexivity. Qed.

(** ** The paginator *)

Lemma range_from_app (a : Z) (n m : nat) :
  range_from a (n + m) = range_from a n ++ range_from (a + Z.of_nat n) m.
Proof.
  revert a. induction n as [|n IH]; intros a.
  - simpl. f_equal. lia.
  - cbn [Nat.add range_from app]. rewrite IH. do 3 f_equal. lia.
Qed.

Lemma in_range_from (p a : Z) (n : nat) :
  In p (range_from a n) <-> a <= p < a + Z.of_nat n.
Proof.
  revert a. induction n as [|n IH]; intros a; cbn [range_from In].
  - lia.
  - rewrite IH. lia.
Qed.

Lemma in_py_range (p a b : Z) : In p (py_range a b) <-> a <= p < b.
Proof. unfold py_range. rewrite in_range_from. lia. Qed.

Lemma py_range_split (a m b : Z) :
  a <= m <= b -> py_range a b = py_range a m ++ py_range m b.
Proof.
  intros H. unfold py_range.
  replace (Z.to_nat (b - a)) with (Z.to_nat (m - a) + Z.to_nat (b - m))%nat by lia.
  rewrite range_from_app. do 2 f_equal. lia.
Qed.

Lemma py_range_first (a b : Z) :
  a < b -> py_range a b = a :: py_range (a + 1) b.
Proof.
  intros H. unfold py_range.
  replace (Z.to_nat (b - a)) with (S (Z.to_nat (b - (a + 1)))) by lia.
  reflexivity.
Qed.

Lemma py_range_one (a : Z) : py_range a (a + 1) = [a].
Proof. rewrite py_range_first by lia. unfold py_range.
       replace (a + 1 - (a + 1)) with 0 by lia. reflexivity. Qed.

Lemma py_range_empty (a b : Z) : b <= a -> py_range a b = [].
Proof.
  intros H. unfold py_range.
  replace (Z.to_nat (b - a)) with 0%nat by lia. reflexivity.
Qed.

Lemma len_py_range (a b : Z) : a <= b -> len (py_range a b) = b - a.
Proof.
  intros H. unfold py_range, len.
  assert (E : forall n x, List.length (range_from x n) = n)
    by (induction n; intros; simpl; auto).
  rewrite E. lia.
Qed.

Section PaginatorProperties.

Variable json_loads : str -> outcome value.
Variable print_error : exn -> outcome unit.
Variable session_get : Z -> outcome str.
Variable format_nonmapping : value -> outcome dict.

Let records := page_records json_loads print_error session_get format_nonmapping.
Let get_page := get_realestates_page json_loads print_error session_get format_nonmapping.
Let loop := page_loop json_loads print_error session_get format_nonmapping.
Let get_all := get_all_realestates json_loads print_error session_get format_nonmapping.

(** One call requests its page, once, and computes the page's records
    from the answer. *)
Lemma get_realestates_page_eq (p : Z) (log : list Z) :
  get_page p log = (records p, log ++ [p]).
Proof.
  unfold get_page, records, get_realestates_page, page_records, mbind, fetch,
    lift, ret.
  destruct (session_get p) as [response|e]; [|reflexivity]. cbn [bind].
  destruct (extract_realestates json_loads print_error response) as [raw|e]; [|reflexivity].
  cbn [bind]. destruct (py_iter raw) as [elems|e]; [|reflexivity].
  cbn [bind]. destruct (comprehension _ elems); reflexivity.
Qed.

Lemma page_loop_step (p : Z) (pages : list Z) (l : locals) (log : list Z) :
  loop (p :: pages) l log =
  match records p with
  | Ok es =>
      if is_nil es
      then (Ok {| page := Some p; estates := Some es;
                  all_estates := all_estates l |}, log ++ [p])
      else loop pages {| page := Some p; estates := Some es;
                         all_estates := all_estates l ++ es |} (log ++ [p])
  | Raise e => (Raise e, log ++ [p])
  end.
Proof.
  unfold loop. cbn [page_loop]. unfold mbind at 1.
  fold get_page. rewrite get_realestates_page_eq.
  destruct (records p) as [es|e]; [|reflexivity].
  destruct (is_nil es); reflexivity.
Qed.

Variable recs : Z -> list dict.

(** The loop stops at the first page without records and requests
    nothing after it. *)
Lemma page_loop_stop (good : list Z) (stop : Z) (later : list Z)
      (l : locals) (log : list Z) :
  (forall p, In p good -> records p = Ok (recs p) /\ recs p <> []) ->
  records stop = Ok [] ->
  loop (good ++ stop :: later) l log =
  (Ok {| page := Some stop; estates := Some [];
         all_estates := all_estates l ++ flat_map recs good |},
   log ++ good ++ [stop]).
Proof.
  intros Hgood Hstop. revert l log.
  induction good as [|p good IH]; intros l log.
  - cbn [app flat_map]. rewrite page_loop_step, Hstop. cbn [is_nil].
    now rewrite app_nil_r.
  - cbn [app flat_map]. rewrite page_loop_step.
    destruct (Hgood p (or_introl eq_refl)) as [-> Hne].
    rewrite (is_nil_false _ Hne).
    rewrite IH by (intros q Hq; apply Hgood; now right).
    cbn [all_estates]. rewrite <- !app_assoc. reflexivity.
Qed.

(** Without such a page the loop visits every page it was given. *)
Lemma page_loop_all (good : list Z) (l : locals) (log : list Z) :
  good <> [] ->
  (forall p, In p good -> records p = Ok (recs p) /\ recs p <> []) ->
  exists pg es,
    es <> [] /\
    loop good l log =
    (Ok {| page := Some pg; estates := Some es;
           all_estates := all_estates l ++ flat_map recs good |},
     log ++ good).
Proof.
  intros Hne Hgood. revert l log.
  induction good as [|p good IH]; intros l log; [congruence|].
  rewrite page_loop_step.
  destruct (Hgood p (or_introl eq_refl)) as [-> Hp].
  rewrite (is_nil_false _ Hp).
  destruct good as [|q good].
  - exists p, (recs p). split; [exact Hp|].
    unfold loop. cbn [page_loop flat_map]. unfold ret.
    now rewrite app_nil_r.
  - destruct (IH ltac:(discriminate)
                ltac:(intros x Hx; apply Hgood; now right)
                {| page := Some p; estates := Some (recs p);
                   all_estates := all_estates l ++ recs p |}
                (log ++ [p])) as (pg & es' & Hes & ->).
    exists pg, es'. split; [exact Hes|].
    cbn [all_estates]. cbn [flat_map].
    rewrite <- !app_assoc. reflexivity.
Qed.

Lemma get_all_realestates_eq (max_pages : Z) (log : list Z) :
  get_all max_pages log =
  match loop (py_range 1 (max_pages + 1))
          {| page := None; estates := None; all_estates := [] |} log with
  | (Ok l, log') =>
      match estates l, page l with
      | Some _, Some _ => (Ok (all_estates l), log')
      | _, _ => (Raise UnboundLocalError, log')
      end
  | (Raise e, log') => (Raise e, log')
  end.
Proof.
  unfold get_all, get_all_realestates, loop, mbind, lift, ret.
  destruct (page_loop _ _ _ _ _ _) as [[l|e] log']; [|reflexivity].
  destruct (estates l) as [es|]; cbn [local]; [|reflexivity].
  destruct (page l) as [pg|]; cbn [local];
    destruct (negb (is_nil es)); reflexivity.
Qed.

(** C3.  For [1 <= max_pages], in a run whose visited pages all return
    record lists: the pages are requested in the order 1, 2, ...; if
    page [n] is the first without records, it is the last one requested
    and the result is the records of pages 1 to [n - 1] in order; if no
    page up to [max_pages] is without records, exactly the [max_pages]
    pages are requested and the result is the records of all of them in
    order. *)
Theorem get_all_realestates_pages (max_pages : Z) (log : list Z) :
  1 <= max_pages ->
  (forall n,
      1 <= n <= max_pages ->
      (forall p, 1 <= p < n -> records p = Ok (recs p) /\ recs p <> []) ->
      records n = Ok [] ->
      get_all max_pages log =
      (Ok (flat_map recs (py_range 1 n)), log ++ py_range 1 (n + 1))) /\
  ((forall p, 1 <= p <= max_pages -> records p = Ok (recs p) /\ recs p <> []) ->
   get_all max_pages log =
   (Ok (flat_map recs (py_range 1 (max_pages + 1))),
    log ++ py_range 1 (max_pages + 1)) /\
   len (py_range 1 (max_pages + 1)) = max_pages).
Proof.
  intros Hmax. split.
  - intros n Hn Hgood Hstop. rewrite get_all_realestates_eq.
    rewrite (py_range_split 1 n (max_pages + 1)) by lia.
    rewrite (py_range_first n (max_pages + 1)) by lia.
    rewrite page_loop_stop;
      [|intros p Hp; apply Hgood; apply in_py_range in Hp; lia|exact Hstop].
    cbn [estates page all_estates app].
    rewrite (py_range_split 1 n (n + 1)) by lia.
    now rewrite py_range_one.
  - intros Hgood. split; [|rewrite len_py_range; lia].
    rewrite get_all_realestates_eq.
    destruct (page_loop_all (py_range 1 (max_pages + 1))
                {| page := None; estates := None; all_estates := [] |} log)
      as (pg & es & Hes & ->).
    + rewrite py_range_first by lia. discriminate.
    + intros p Hp. apply Hgood. apply in_py_range in Hp. lia.
    + reflexivity.
Qed.

(** C9.  For [max_pages <= 0] the loop body never runs, no page is
    requested, and reading the unbound [estates] after the loop raises:
    the call does not return a list. *)
Theorem get_all_realestates_unbound (max_pages : Z) (log : list Z) :
  max_pages <= 0 ->
  get_all max_pages log = (Raise UnboundLocalError, log).
Proof.
  intros H. rewrite get_all_realestates_eq, py_range_empty by lia.
  reflexivity.
Qed.

End PaginatorProperties.

Lemma get_all_realestates_pages_witness :
  get_all_realestates JsonRef.loads quiet_print sample_site no_nonmapping 5 []
  = (Ok (flat_map sample_records (py_range 1 3)), [] ++ py_range 1 (3 + 1)) /\
  get_all_realestates JsonRef.loads quiet_print sample_site no_nonmapping 2 []
  = (Ok (flat_map sample_records (py_range 1 (2 + 1))), [] ++ py_range 1 (2 + 1)).
Proof.
  split.
  - apply (proj1 (get_all_realestates_pages JsonRef.loads quiet_print sample_site
                    no_nonmapping sample_records 5 [] ltac:(lia)) 3).
    + lia.
    + intros p Hp. assert (E : p = 1 \/ p = 2) by lia.
      destruct E as [-> | ->]; split;
        solve [vm_compute; reflexivity | vm_compute; discriminate].
    + vm_compute. reflexivity.
  - apply (proj2 (get_all_realestates_pages JsonRef.loads quiet_print sample_site
                    no_nonmapping sample_records 2 [] ltac:(lia))).
    intros p Hp. assert (E : p = 1 \/ p = 2) by lia.
    destruct E as [-> | ->]; split;
      solve [vm_compute; reflexivity | vm_compute; discriminate].
Defined.

Lemma get_all_realestates_unbound_witness :
  get_all_realestates JsonRef.loads quiet_print sample_site no_nonmapping 0 []
  = (Raise UnboundLocalError, []) /\
  get_all_realestates JsonRef.loads quiet_print sample_site no_nonmapping (-3) [1]
  = (Raise UnboundLocalError, [1]).
Proof.
  split; apply get_all_realestates_unbound; lia.
Defined.

(** The run on the sample site: three requests, three records. *)
Example get_all_realestates_sample :
  get_all_realestates JsonRef.loads quiet_print sample_site no_nonmapping 10 []
  = (Ok (sample_records 1 ++ sample_records 2), [1; 2; 3]).
Proof. vm_compute. reflexivity. Qed.

(** C8.  On a page whose balanced block decodes to an object that holds
    [null] under [realEstates], the extractor returns that [None], which
    is no sequence, and the page function that iterates over it raises
    [TypeError]. *)
Theorem extract_realestates_null (print_error : exn -> outcome unit) :
  extract_realestates JsonRef.loads print_error page_null = Ok JNull /\
  get_realestates_page JsonRef.loads print_error (fun _ => Ok page_null)
    no_nonmapping 1 []
  = (Raise TypeError, [1]).
Proof. split; vm_compute; reflexivity. Qed.

(** ** The repair that [decode_text] is for *)

Lemma in_range_true (lo hi b : Z) : lo <= b <= hi -> in_range lo hi b = true.
Proof. intros H. unfold in_range. apply andb_true_iff. lia. Qed.

Lemma in_range_false (lo hi b : Z) :
  b < lo \/ hi < b -> in_range lo hi b = false.
Proof. intros H. unfold in_range. apply andb_false_iff. lia. Qed.

Lemma is_cont_low (x : Z) : is_cont (128 + x mod 64) = true.
Proof.
  unfold is_cont. pose proof (Z.mod_pos_bound x 64 ltac:(lia)).
  apply andb_true_iff. lia.
Qed.

Lemma same_head (x c : Z) (r : outcome str) :
  x = c -> (let* t := r in Ok (x :: t)) = (let* t := r in Ok (c :: t)).
Proof. now intros ->. Qed.

(** The decoder reads back the encoding of one code point and goes on
    with what follows it. *)
Lemma utf8_decode_encode_cp (c : Z) (rest : list Z) :
  scalar c ->
  utf8_decode (utf8_encode_cp c ++ rest) =
  let* t := utf8_decode rest in Ok (c :: t).
Proof.
  intros [Hc Hs]. unfold utf8_encode_cp.
  pose proof (Z.mod_pos_bound c 64 ltac:(lia)) as M0.
  pose proof (Z.mod_pos_bound (c / 64) 64 ltac:(lia)) as M1.
  pose proof (Z.mod_pos_bound (c / 4096) 64 ltac:(lia)) as M2.
  pose proof (Z.div_mod c 64 ltac:(lia)) as D0.
  pose proof (Z.div_mod (c / 64) 64 ltac:(lia)) as D1.
  pose proof (Z.div_mod (c / 4096) 64 ltac:(lia)) as D2.
  assert (E1 : c / 64 / 64 = c / 4096)
    by (rewrite Z.div_div by lia; reflexivity).
  assert (E2 : c / 4096 / 64 = c / 262144)
    by (rewrite Z.div_div by lia; reflexivity).
  rewrite E1 in D1. rewrite E2 in D2.
  destruct (c <? 128) eqn:C1; [apply Z.ltb_lt in C1|apply Z.ltb_ge in C1].
  { cbn [app utf8_decode]. rewrite in_range_true by lia. reflexivity. }
  destruct (c <? 2048) eqn:C2; [apply Z.ltb_lt in C2|apply Z.ltb_ge in C2].
  { cbn [app utf8_decode].
    rewrite in_range_false by lia. rewrite in_range_true by lia.
    rewrite is_cont_low. apply same_head. lia. }
  destruct (c <? 65536) eqn:C3; [apply Z.ltb_lt in C3|apply Z.ltb_ge in C3].
  { cbn [app utf8_decode].
    rewrite in_range_false by lia. rewrite in_range_false by lia.
    rewrite in_range_true by lia.
    assert (S3 : second3 (224 + c / 4096) (128 + (c / 64) mod 64) = true).
    { unfold second3.
      destruct (224 + c / 4096 =? 224) eqn:A; [apply Z.eqb_eq in A|].
      - apply in_range_true. lia.
      - destruct (224 + c / 4096 =? 237) eqn:B; [apply Z.eqb_eq in B|].
        + apply in_range_true. lia.
        + apply is_cont_low. }
    rewrite S3, is_cont_low. cbn [andb]. apply same_head. lia. }
  cbn [app utf8_decode].
  rewrite in_range_false by lia. rewrite in_range_false by lia.
  rewrite in_range_false by lia. rewrite in_range_true by lia.
  assert (S4 : second4 (240 + c / 262144) (128 + (c / 4096) mod 64) = true).
  { unfold second4.
    destruct (240 + c / 262144 =? 240) eqn:A; [apply Z.eqb_eq in A|].
    - apply in_range_true. lia.
    - destruct (240 + c / 262144 =? 244) eqn:B; [apply Z.eqb_eq in B|].
      + apply in_range_true. lia.
      + apply is_cont_low. }
  rewrite S4, !is_cont_low. cbn [andb]. apply same_head. lia.
Qed.

Lemma utf8_decode_encode (s : str) :
  Forall scalar s -> utf8_decode (flat_map utf8_encode_cp s) = Ok s.
Proof.
  induction 1 as [|c s Hc Hs IH]; [reflexivity|].
  cbn [flat_map]. rewrite utf8_decode_encode_cp by exact Hc.
  rewrite IH. reflexivity.
Qed.

Lemma utf8_encode_cp_bytes (c : Z) :
  scalar c -> Forall (fun b => 0 <= b <= 255) (utf8_encode_cp c).
Proof.
  intros [Hc _]. unfold utf8_encode_cp.
  pose proof (Z.mod_pos_bound c 64 ltac:(lia)).
  pose proof (Z.mod_pos_bound (c / 64) 64 ltac:(lia)).
  pose proof (Z.mod_pos_bound (c / 4096) 64 ltac:(lia)).
  pose proof (Z.div_mod c 64 ltac:(lia)).
  pose proof (Z.div_mod c 4096 ltac:(lia)).
  pose proof (Z.div_mod c 262144 ltac:(lia)).
  pose proof (Z.mod_pos_bound c 4096 ltac:(lia)).
  pose proof (Z.mod_pos_bound c 262144 ltac:(lia)).
  destruct (c <? 128) eqn:C1; [apply Z.ltb_lt in C1|apply Z.ltb_ge in C1].
  { repeat (apply Forall_cons; [cbv beta; lia|]); apply Forall_nil. }
  destruct (c <? 2048) eqn:C2; [apply Z.ltb_lt in C2|apply Z.ltb_ge in C2].
  { repeat (apply Forall_cons; [cbv beta; lia|]); apply Forall_nil. }
  destruct (c <? 65536) eqn:C3; [apply Z.ltb_lt in C3|apply Z.ltb_ge in C3];
    repeat (apply Forall_cons; [cbv beta; lia|]); apply Forall_nil.
Qed.

Lemma latin1_encode_bytes (bs : list Z) :
  Forall (fun b => 0 <= b <= 255) bs -> latin1_encode bs = Ok bs.
Proof.
  induction 1 as [|b bs Hb Hbs IH]; [reflexivity|].
  cbn [latin1_encode].
  replace ((0 <=? b) && (b <=? 255)) with true
    by (symmetry; apply andb_true_iff; lia).
  rewrite IH. reflexivity.
Qed.

(** A text whose UTF-8 bytes were read as Latin-1 characters is given
    back as it was. *)
Lemma redecode_repairs (s : str) :
  Forall scalar s -> redecode (flat_map utf8_encode_cp s) = s.
Proof.
  intros H. unfold redecode.
  rewrite latin1_encode_bytes.
  - now rewrite utf8_decode_encode.
  - apply Forall_flat_map. revert H. apply Forall_impl.
    intros c Hc. now apply utf8_encode_cp_bytes.
Qed.

(** * Further properties *)

(** ** The extractor, for every page text *)

(** An answer of [find] other than [-1] is the place of the first
    occurrence. *)
Lemma find_from_found (k t : str) (pos n : Z) :
  find_from k t pos = n -> n <> -1 -> 0 <= pos ->
  exists pre rest,
    t = pre ++ k ++ rest /\ n = pos + len pre /\
    forall p1 p2, pre = p1 ++ p2 -> p2 <> [] ->
                  starts_with k (p2 ++ k ++ rest) = false.
Proof.
  revert pos. induction t as [|c t IH]; intros pos Hf Hn Hpos;
    rewrite find_from_eq in Hf.
  - destruct (starts_with k []) eqn:E; [|congruence].
    apply starts_with_inv in E as [r E]. exists [], r.
    split; [exact E|]. split; [unfold len; simpl; lia|].
    intros p1 p2 Hp Hp2. destruct p1; destruct p2; try discriminate; congruence.
  - destruct (starts_with k (c :: t)) eqn:E.
    + apply starts_with_inv in E as [r E]. exists [], r.
      split; [exact E|]. split; [unfold len; simpl; lia|].
      intros p1 p2 Hp Hp2. destruct p1; destruct p2; try discriminate; congruence.
    + destruct (IH (pos + 1) Hf Hn ltac:(lia)) as (pre & rest & -> & Hlen & Hfirst).
      exists (c :: pre), rest. split; [reflexivity|].
      split; [rewrite len_cons; lia|].
      intros p1 p2 Hp Hp2. destruct p1 as [|c' p1].
      * simpl in Hp. subst p2. exact E.
      * injection Hp as _ Hp. now apply (Hfirst p1 p2).
Qed.

Lemma first_not_inside (k pre rest : str) :
  (forall p1 p2, pre = p1 ++ p2 -> p2 <> [] ->
                 starts_with k (p2 ++ k ++ rest) = false) ->
  k <> [] -> ~ occurs k pre.
Proof.
  intros H Hk [a [b E]].
  assert (Hs : starts_with k ((k ++ b) ++ k ++ rest) = true)
    by (rewrite <- app_assoc; apply starts_with_app).
  rewrite (H a (k ++ b) E) in Hs; [discriminate|].
  destruct k; [congruence|discriminate].
Qed.

(** A page text with the marker splits at its first occurrence. *)
Lemma str_find_found (text : str) :
  str_find text key <> -1 ->
  exists pre rest, text = pre ++ key ++ rest /\ ~ occurs key pre.
Proof.
  intros H.
  destruct (find_from_found key text 0 _ eq_refl H ltac:(lia))
    as (pre & rest & E & _ & Hfirst).
  exists pre, rest. split; [exact E|].
  apply (first_not_inside key pre rest Hfirst). discriminate.
Qed.

(** What a scan that ends at a brace has walked over. *)
Lemma scan_found (rest : str) (j : Z) (stack : list Z) (e : Z) :
  stack <> [] ->
  scan rest j stack = Ok (Some e) ->
  exists body post,
    rest = body ++ [rbrace] ++ post /\ e = j + len body + 1 /\
    len stack + depth (body ++ [rbrace]) = 0 /\
    forall n, (n <= List.length body)%nat ->
              len stack + depth (firstn n (body ++ [rbrace])) <> 0.
Proof.
  revert j stack. induction rest as [|c rest IH]; intros j stack Hne H;
    [discriminate|].
  assert (Hlen : len stack <> 0).
  { destruct stack; [congruence|]. rewrite len_cons.
    pose proof (len_nonneg stack). lia. }
  cbn [scan] in H. destruct (c =? lbrace) eqn:El.
  - assert (Hne' : stack ++ [lbrace] <> []) by (destruct stack; discriminate).
    destruct (IH _ _ Hne' H) as (body & post & -> & -> & Hd & Hopen).
    rewrite len_app in Hd, Hopen. unfold len in Hd at 2, Hopen at 2.
    simpl List.length in Hd, Hopen.
    exists (c :: body), post. split; [reflexivity|].
    split; [rewrite len_cons; lia|]. split.
    + cbn [app depth]. rewrite El. simpl Z.of_nat in Hd. lia.
    + intros n Hn. destruct n as [|n]; [simpl; lia|].
      cbn [app firstn depth]. rewrite El.
      specialize (Hopen n ltac:(simpl in Hn; lia)). simpl Z.of_nat in Hopen. lia.
  - destruct (c =? rbrace) eqn:Er.
    + rewrite pop_nonempty in H by exact Hne. unfold bind in H.
      pose proof (len_removelast _ Hne) as Hl.
      apply Z.eqb_eq in Er. subst c.
      destruct (is_nil (removelast stack)) eqn:E.
      * apply is_nil_len in E. assert (He : e = j + 1) by congruence. subst e.
        exists [], rest. split; [reflexivity|].
        split; [unfold len; simpl; lia|]. split.
        -- cbn [app depth]. rewrite El, Z.eqb_refl. lia.
        -- intros n Hn. simpl in Hn. replace n with 0%nat by lia. simpl. lia.
      * assert (Hne' : removelast stack <> [])
          by (intros E'; rewrite E' in E; discriminate).
        destruct (IH _ _ Hne' H) as (body & post & -> & -> & Hd & Hopen).
        exists (rbrace :: body), post. split; [reflexivity|].
        split; [rewrite len_cons; lia|]. split.
        -- cbn [app depth]. rewrite El, Z.eqb_refl. lia.
        -- intros n Hn. destruct n as [|n]; [simpl; lia|].
           cbn [app firstn depth]. rewrite El, Z.eqb_refl.
           specialize (Hopen n ltac:(simpl in Hn; lia)). lia.
    + destruct (IH _ _ Hne H) as (body & post & -> & -> & Hd & Hopen).
      exists (c :: body), post. split; [reflexivity|].
      split; [rewrite len_cons; lia|]. split.
      * cbn [app depth]. rewrite El, Er. lia.
      * intros n Hn. destruct n as [|n]; [simpl; lia|].
        cbn [app firstn depth]. rewrite El, Er.
        specialize (Hopen n ltac:(simpl in Hn; lia)). lia.
Qed.

Lemma closes_at_end_snoc (body : str) :
  1 + depth (body ++ [rbrace]) = 0 ->
  (forall n, (n <= List.length body)%nat ->
             1 + depth (firstn n (body ++ [rbrace])) <> 0) ->
  closes_at_end (body ++ [rbrace]).
Proof.
  intros Hd Hopen. split; [exact Hd|].
  intros n Hn. apply Hopen. rewrite length_app in Hn. simpl in Hn. lia.
Qed.

Section ExtractorFurther.

Variable json_loads : str -> outcome value.
Variable print_error : exn -> outcome unit.

(** After the first marker and a block that closes, the extractor
    returns what it selects from the decoder's answer for the block. *)
Lemma extract_block (pre body post : str) :
  ~ occurs key pre ->
  closes_at_end body ->
  extract_realestates json_loads print_error
    (pre ++ key_prefix ++ (lbrace :: body) ++ post) =
  select_entry print_error (json_loads (lbrace :: body)).
Proof.
  intros Hno [Hd Hopen].
  assert (Etext : pre ++ key_prefix ++ (lbrace :: body) ++ post =
                  pre ++ key ++ body ++ post).
  { unfold key. simpl lit. rewrite <- !app_assoc. reflexivity. }
  rewrite Etext, extract_at by exact Hno.
  rewrite scan_closes; [|discriminate|exact Hd|exact Hopen].
  unfold bind at 1. rewrite <- Etext.
  replace (len pre + len key + len body)
    with (len (pre ++ key_prefix) + len (lbrace :: body))
    by (rewrite len_app, len_cons, len_key; lia).
  rewrite <- (len_app pre key_prefix).
  rewrite (app_assoc pre key_prefix), slice_middle.
  unfold select_entry, dict_get_default.
  destruct (json_loads (lbrace :: body)) as [data|e]; [|reflexivity].
  cbn [bind]. destruct data; try reflexivity.
  cbn [py_get]. destruct (dict_get _ d); reflexivity.
Qed.

(** Every page text is of one of two kinds: the extractor returns the
    empty list without calling the decoder, or the text holds a first
    marker followed by a block that closes, and the extractor does what
    it selects from the decoder's answer for that block. *)
Lemma extract_cases (text : str) :
  extract_realestates json_loads print_error text = Ok (JList []) \/
  exists pre body post,
    text = pre ++ key_prefix ++ (lbrace :: body) ++ post /\
    ~ occurs key pre /\ closes_at_end body /\
    extract_realestates json_loads print_error text
    = select_entry print_error (json_loads (lbrace :: body)).
Proof.
  destruct (Z.eq_dec (str_find text key) (-1)) as [E|E].
  - left. unfold extract_realestates. cbv zeta. now rewrite E.
  - destruct (str_find_found text E) as (pre & rest & -> & Hno).
    destruct (scan rest (len pre + len key) [lbrace]) as [[e|]|x] eqn:Es.
    + right.
      destruct (scan_found rest _ [lbrace] e ltac:(discriminate) Es)
        as (body & post & -> & _ & Hd & Hopen).
      assert (Hc : closes_at_end (body ++ [rbrace]))
        by now apply closes_at_end_snoc.
      exists pre, (body ++ [rbrace]), post.
      assert (Etext : pre ++ key ++ body ++ [rbrace] ++ post =
                      pre ++ key_prefix ++ (lbrace :: body ++ [rbrace]) ++ post).
      { unfold key. simpl lit. cbn [app]. rewrite <- !app_assoc. reflexivity. }
      rewrite Etext. repeat split; try assumption; try apply Hc.
      now apply extract_block.
    + left. rewrite extract_at by exact Hno. now rewrite Es.
    + destruct (scan_ok rest (len pre + len key) [lbrace] ltac:(discriminate))
        as [r Hr]. congruence.
Qed.

(** X1.  The only exception that can leave the extractor is one that the
    print of its handler raises: whatever the page text, and whatever the
    decoder does, the scan and the slicing raise nothing and every
    exception of the decoder and of [.get] is caught.  So where that
    print returns, the extractor returns. *)
Theorem extract_realestates_returns (text : str) :
  (forall x, extract_realestates json_loads print_error text = Raise x ->
             exists e, print_error e = Raise x) /\
  ((forall e, exists u, print_error e = Ok u) ->
   exists v, extract_realestates json_loads print_error text = Ok v).
Proof.
  assert (Hsel : forall r x, select_entry print_error r = Raise x ->
                             exists e, print_error e = Raise x).
  { intros r x. unfold select_entry.
    destruct r as [v|e].
    - destruct v; try discriminate;
        (destruct (print_error AttributeError) as [u|y] eqn:Ep;
         cbn [bind]; [discriminate|]; intros H; exists AttributeError; congruence).
    - destruct (print_error e) as [u|y] eqn:Ep; cbn [bind]; [discriminate|].
      intros H. exists e. congruence. }
  assert (Hraise : forall x,
             extract_realestates json_loads print_error text = Raise x ->
             exists e, print_error e = Raise x).
  { intros x H.
    destruct (extract_cases text) as [E|(pre & body & post & _ & _ & _ & E)];
      rewrite E in H; [discriminate|]. exact (Hsel _ x H). }
  split; [exact Hraise|].
  intros Hprint.
  destruct (extract_realestates json_loads print_error text) as [v|x] eqn:E;
    [eauto|].
  destruct (Hraise x eq_refl) as [e He].
  destruct (Hprint e) as [u Hu]. congruence.
Qed.

(** X2.  Whatever the extractor returns other than the empty list is the
    [realEstates] entry of an object, and that object is the decoder's
    answer for the block that starts at the brace of the first marker and
    ends where the depth counter first comes back to zero. *)
Theorem extract_realestates_sound (text : str) (v : value) :
  extract_realestates json_loads print_error text = Ok v ->
  v <> JList [] ->
  exists pre body post d,
    text = pre ++ key_prefix ++ (lbrace :: body) ++ post /\
    ~ occurs key pre /\ closes_at_end body /\
    json_loads (lbrace :: body) = Ok (JObj d) /\
    dict_get (lit "realEstates") d = Some v.
Proof.
  intros H Hv.
  destruct (extract_cases text) as [E|(pre & body & post & Et & Hno & Hc & E)];
    rewrite E in H; [apply Ok_inj in H; congruence|].
  exists pre, body, post.
  assert (Hprinted : forall e, (let* _ := print_error e in Ok (JList [])) = Ok v ->
                               False).
  { intros e. destruct (print_error e); cbn [bind]; [|discriminate].
    intros Hp. apply Ok_inj in Hp. congruence. }
  unfold select_entry in H.
  destruct (json_loads (lbrace :: body)) as [data|x];
    [|now destruct (Hprinted x)].
  destruct data as [| | | | | |d]; try now destruct (Hprinted AttributeError).
  exists d. repeat split; try assumption; try apply Hc.
  apply Ok_inj in H. unfold dict_get_default in H.
  destruct (dict_get (lit "realEstates") d); congruence.
Qed.

(** X3.  When the block after the first marker closes but the decoder
    raises on it, the handler prints that exception and then the
    extractor returns the empty list; when the decoder answers with
    something that is no object, the same happens with the
    [AttributeError] of [.get].  If the print raises instead of
    returning, its exception leaves the extractor. *)
Theorem extract_realestates_undecodable (pre body post : str) :
  ~ occurs key pre ->
  closes_at_end body ->
  (forall e, json_loads (lbrace :: body) = Raise e ->
             extract_realestates json_loads print_error
               (pre ++ key_prefix ++ (lbrace :: body) ++ post)
             = let* _ := print_error e in Ok (JList [])) /\
  (forall v, json_loads (lbrace :: body) = Ok v -> is_obj v = false ->
             extract_realestates json_loads print_error
               (pre ++ key_prefix ++ (lbrace :: body) ++ post)
             = let* _ := print_error AttributeError in Ok (JList [])).
Proof.
  intros Hno Hc. rewrite extract_block by assumption. split.
  - intros e ->. reflexivity.
  - intros v -> Hv. destruct v; try discriminate; reflexivity.
Qed.

(** X4.  The result depends on the block alone: the text before the first
    marker and the text after the closing brace of its block, further
    markers and payloads included, change nothing. *)
Theorem extract_realestates_frame (pre pre' body post post' : str) :
  ~ occurs key pre ->
  ~ occurs key pre' ->
  closes_at_end body ->
  extract_realestates json_loads print_error
    (pre ++ key_prefix ++ (lbrace :: body) ++ post) =
  extract_realestates json_loads print_error
    (pre' ++ key_prefix ++ (lbrace :: body) ++ post').
Proof.
  intros Hno Hno' Hc. now rewrite !extract_block by assumption.
Qed.

End ExtractorFurther.

Lemma extract_realestates_sound_witness :
  exists pre body post d,
    page_one = pre ++ key_prefix ++ (lbrace :: body) ++ post /\
    ~ occurs key pre /\ closes_at_end body /\
    JsonRef.loads (lbrace :: body) = Ok (JObj d) /\
    dict_get (lit "realEstates") d
    = Some (JList [JObj [(lit "id", JInt 7); (lit "title", JStr (lit "Villa"))];
                   JObj [(lit "id", JInt 8)]]).
Proof.
  apply (extract_realestates_sound JsonRef.loads quiet_print page_one).
  - vm_compute. reflexivity.
  - discriminate.
Defined.

Lemma extract_realestates_returns_witness :
  (exists v, extract_realestates JsonRef.loads quiet_print
               (lit "<script>" ++ key_prefix ++ (lbrace :: cut_body) ++ cut_rest)
             = Ok v) /\
  (exists e, ascii_print e = Raise UnicodeEncodeError).
Proof.
  split.
  - apply (proj2 (extract_realestates_returns JsonRef.loads quiet_print _)).
    intros e. now exists tt.
  - apply (proj1 (extract_realestates_returns JsonRef.loads ascii_print
                    (lit "<script>" ++ key_prefix ++ (lbrace :: cut_body)
                     ++ cut_rest))).
    vm_compute. reflexivity.
Defined.

Lemma extract_realestates_undecodable_witness :
  extract_realestates JsonRef.loads quiet_print
    (lit "<script>" ++ key_prefix ++ (lbrace :: cut_body) ++ cut_rest)
  = Ok (JList []) /\
  extract_realestates JsonRef.loads ascii_print
    (lit "<script>" ++ key_prefix ++ (lbrace :: cut_body) ++ cut_rest)
  = Raise UnicodeEncodeError.
Proof.
  split.
  - apply (proj1 (extract_realestates_undecodable JsonRef.loads quiet_print
                    (lit "<script>") cut_body cut_rest
                    ltac:(apply absent_dec; vm_compute; reflexivity)
                    ltac:(apply closes_at_end_dec; vm_compute; reflexivity))
             JSONDecodeError).
    vm_compute. reflexivity.
  - apply (proj1 (extract_realestates_undecodable JsonRef.loads ascii_print
                    (lit "<script>") cut_body cut_rest
                    ltac:(apply absent_dec; vm_compute; reflexivity)
                    ltac:(apply closes_at_end_dec; vm_compute; reflexivity))
             JSONDecodeError).
    vm_compute. reflexivity.
Defined.

Lemma extract_realestates_frame_witness :
  extract_realestates JsonRef.loads quiet_print
    (noise_before ++ key_prefix ++ (lbrace :: payload_body) ++ noise_after) =
  extract_realestates JsonRef.loads quiet_print
    ([] ++ key_prefix ++ (lbrace :: payload_body) ++ page_two).
Proof.
  apply (extract_realestates_frame JsonRef.loads quiet_print noise_before [] payload_body
           noise_after page_two).
  - apply absent_dec. vm_compute. reflexivity.
  - apply absent_dec. vm_compute. reflexivity.
  - apply closes_at_end_dec. vm_compute. reflexivity.
Defined.

(** ** The normaliser, beyond the derived entries *)

Lemma comprehension_all {A B} (step : A -> outcome (list B))
      (P : list B -> Prop) (Q : A -> Prop) (l : list A) (r : list B) :
  (forall a b, P (a ++ b) -> P a /\ P b) ->
  (forall x ys, step x = Ok ys -> P ys -> Q x) ->
  comprehension step l = Ok r -> P r -> Forall Q l.
Proof.
  intros Hsplit Hstep. revert r. induction l as [|x l IH]; intros r H HP;
    [constructor|].
  cbn [comprehension] in H.
  destruct (step x) as [ys|e] eqn:Ex; [|discriminate]. cbn [bind] in H.
  destruct (comprehension step l) as [rest|e]; [|discriminate].
  cbn [bind] in H. apply Ok_inj in H. subst r.
  destruct (Hsplit _ _ HP) as [Pys Prest].
  constructor; [now apply (Hstep x ys)|now apply (IH rest)].
Qed.

Lemma comprehension_raise {A B} (step : A -> outcome (list B))
      (g : A -> list B) (good : list A) (bad : A) (later : list A) (e : exn) :
  (forall x, In x good -> step x = Ok (g x)) ->
  step bad = Raise e ->
  comprehension step (good ++ bad :: later) = Raise e.
Proof.
  intros Hgood Hbad. induction good as [|x good IH]; cbn [app comprehension].
  - now rewrite Hbad.
  - rewrite (Hgood x (or_introl eq_refl)). cbn [bind].
    rewrite IH by (intros y Hy; apply Hgood; now right). reflexivity.
Qed.

Lemma image_url_entry_ok (img : value) (ys : list value) :
  image_url img = Ok ys -> entry_ok (lit "file_name") img = true.
Proof.
  unfold image_url, entry_ok.
  destruct img as [| | | | |l|d]; try discriminate.
  unfold py_get, py_item, dict_item.
  destruct (dict_get (lit "file_name") d) as [v|]; cbn [bind]; [|reflexivity].
  destruct (truthy v); [|reflexivity].
  destruct v; try discriminate. reflexivity.
Qed.

Lemma type_name_entry_ok (t : value) (ys : list value) :
  type_name t = Ok ys -> forallb is_str ys = true ->
  entry_ok (lit "name") t = true.
Proof.
  unfold type_name, entry_ok.
  destruct t as [| | | | |l|d]; try discriminate.
  unfold py_get.
  destruct (dict_get (lit "name") d) as [v|]; cbn [bind]; [|reflexivity].
  destruct (truthy v) eqn:T; [|reflexivity].
  destruct (is_str v) eqn:S; [now rewrite orb_true_r|].
  rewrite (decode_text_other v T S). cbn [bind].
  intros H Hall. apply Ok_inj in H. subst ys. cbn [forallb] in Hall.
  rewrite S in Hall. discriminate.
Qed.

Lemma image_urls_of_walkable (e : dict) (urls : list value) :
  image_urls_of e = Ok urls -> images_walkable e = true.
Proof.
  unfold image_urls_of, images_walkable, dict_get_default.
  destruct (dict_get (lit "images") e) as [v|]; [|reflexivity].
  destruct v as [| | | |s|imgs|d]; try discriminate.
  - destruct s as [|c s]; [reflexivity|]. discriminate.
  - cbn [py_iter bind]. intros H. apply forallb_forall. apply Forall_forall.
    apply (comprehension_all image_url (fun _ => True)
             (fun img => entry_ok (lit "file_name") img = true) imgs urls);
      [intros; split; exact I
      |intros x ys Hx _; now apply (image_url_entry_ok x ys)
      |exact H|exact I].
  - destruct d as [|[k0 v0] d]; [reflexivity|]. discriminate.
Qed.

Lemma image_urls_of_walkable_ok (e : dict) :
  images_walkable e = true -> exists urls, image_urls_of e = Ok urls.
Proof.
  unfold images_walkable, image_urls_of, dict_get_default.
  destruct (dict_get (lit "images") e) as [v|]; [|intros _; now exists []].
  destruct v as [| | | |s|imgs|d]; try discriminate.
  - destruct s; [intros _; now exists []|discriminate].
  - intros H. cbn [py_iter bind]. rewrite forallb_forall in H.
    eexists. apply (comprehension_ok image_url (fun x => map JStr (image_step x))).
    intros x Hx. apply image_url_ok, H, Hx.
  - destruct d; [intros _; now exists []|discriminate].
Qed.

Lemma types_of_types_ok (e : dict) (joined : str) :
  types_of e = Ok joined -> types_ok e = true.
Proof.
  unfold types_of, types_ok, dict_get_default.
  destruct (dict_get (lit "types") e) as [v|]; [|reflexivity].
  destruct v as [| | | | |ts|d]; try reflexivity.
  destruct ts as [|t ts]; [reflexivity|].
  cbn [truthy is_nil negb is_list andb py_iter bind].
  destruct (comprehension type_name (t :: ts)) as [names|x] eqn:Ec;
    [|discriminate].
  cbn [bind]. intros Hj. pose proof (str_join_all_str _ _ _ Hj) as Hall.
  apply forallb_forall. apply Forall_forall.
  apply (comprehension_all type_name (fun l => forallb is_str l = true)
           (fun t => entry_ok (lit "name") t = true) (t :: ts) names);
    [apply forallb_is_str_app|apply type_name_entry_ok|exact Ec|exact Hall].
Qed.

(** [format_estate] in terms of the record it is given. *)
Lemma format_estate_steps (estate : dict) :
  exists r,
    for_each decode_field text_fields estate = Ok r /\
    (forall k, dict_get k r =
               if existsb (str_eqb k) text_fields
               then option_map decoded_value (dict_get k estate)
               else dict_get k estate) /\
    format_estate estate =
    let* urls := image_urls_of estate in
    let* joined := types_of estate in
    Ok (dict_set (lit "types") (JStr joined)
          (dict_set (lit "image_urls") (JList urls) r)).
Proof.
  destruct (decode_fields text_fields text_fields_nodup estate) as [r [Hfor Hr]].
  exists r. split; [exact Hfor|]. split; [exact Hr|].
  rewrite format_estate_eq, Hfor. cbn [bind]. cbv zeta.
  rewrite (image_urls_of_get r estate) by (now rewrite Hr, field_images).
  destruct (image_urls_of estate) as [urls|x]; [|reflexivity]. cbn [bind].
  rewrite (types_of_get _ estate)
    by (rewrite dict_get_set_other by reflexivity; now rewrite Hr, field_types).
  reflexivity.
Qed.

(** X5.  [format_estate] returns exactly on the records whose [images]
    can be walked through (absent, a list of mappings that hold under
    [file_name] nothing, a false value or a string, or an empty string or
    mapping) and whose [types], if a list, is a list of mappings that
    hold under [name] nothing, a false value or a string; on every other
    record it raises. *)
Theorem format_estate_returns_iff (estate : dict) :
  (exists res, format_estate estate = Ok res) <->
  images_walkable estate = true /\ types_ok estate = true.
Proof.
  destruct (format_estate_steps estate) as (r & _ & _ & ->). split.
  - intros [res H].
    destruct (image_urls_of estate) as [urls|x] eqn:Eu; [|discriminate].
    cbn [bind] in H.
    destruct (types_of estate) as [joined|x] eqn:Et; [|discriminate].
    split; [now apply (image_urls_of_walkable _ urls)
           |now apply (types_of_types_ok _ joined)].
  - intros [Hi Ht].
    destruct (image_urls_of_walkable_ok _ Hi) as [urls ->].
    destruct (types_of_ok _ Ht) as [joined ->]. cbn [bind]. eauto.
Qed.

(** X6.  Every key other than the four text fields, [image_urls] and
    [types] holds in the result what it held in the input, and is absent
    from the result if it was absent from the input. *)
Theorem format_estate_passes_through (estate res : dict) (k : str) :
  format_estate estate = Ok res ->
  existsb (str_eqb k) (text_fields ++ derived_keys) = false ->
  dict_get k res = dict_get k estate.
Proof.
  intros H Hk.
  destruct (format_estate_inv _ _ H) as (r & urls & joined & Hr & _ & _ & ->).
  rewrite existsb_app in Hk. apply orb_false_iff in Hk as [Hf Hd].
  cbn [derived_keys existsb] in Hd.
  apply orb_false_iff in Hd as [Hi Hd]. apply orb_false_iff in Hd as [Ht _].
  rewrite !dict_get_set_other by assumption.
  now rewrite Hr, Hf.
Qed.

(** X7.  A text field that holds no string: an absent field stays absent
    and [null] stays [null]; any other false value (0, [false], an empty
    list or mapping) is replaced by the empty string; a true value that
    is no string is kept as it is. *)
Theorem format_estate_text_field_other (estate res : dict) (k : str) :
  format_estate estate = Ok res ->
  In k text_fields ->
  (dict_get k estate = None -> dict_get k res = None) /\
  (forall v, dict_get k estate = Some v -> is_str v = false ->
             dict_get k res
             = Some (if truthy v then v else if is_none v then JNull else JStr [])).
Proof.
  intros H Hk.
  destruct (format_estate_inv _ _ H) as (r & urls & joined & Hr & _ & _ & ->).
  assert (Hin : existsb (str_eqb k) text_fields = true).
  { apply existsb_exists. exists k. split; [exact Hk|apply str_eqb_refl]. }
  assert (Hne : str_eqb k (lit "types") = false /\
                str_eqb k (lit "image_urls") = false).
  { unfold text_fields in Hk. simpl in Hk.
    repeat destruct Hk as [Hk|Hk]; try contradiction; subst k;
      split; reflexivity. }
  destruct Hne as [Ht Hi].
  rewrite !dict_get_set_other by assumption. rewrite Hr, Hin.
  split.
  - now intros ->.
  - intros v -> Hs. cbn [option_map]. f_equal. unfold decoded_value.
    destruct (truthy v) eqn:T.
    + destruct (is_none v) eqn:N; [destruct v; discriminate|].
      now rewrite (decode_text_other v T Hs).
    + destruct (is_none v) eqn:N; [destruct v; try discriminate; reflexivity|].
      unfold decode_text. now rewrite T.
Qed.

Lemma format_estate_returns_iff_witness :
  exists res, format_estate sample_estate = Ok res.
Proof.
  apply (proj2 (format_estate_returns_iff sample_estate)).
  split; vm_compute; reflexivity.
Defined.

Lemma format_estate_passes_through_witness :
  dict_get (lit "id") sample_normalized = dict_get (lit "id") sample_estate /\
  dict_get (lit "images") sample_normalized = dict_get (lit "images") sample_estate /\
  dict_get (lit "absent") sample_normalized = dict_get (lit "absent") sample_estate.
Proof.
  split; [|split];
    apply (format_estate_passes_through sample_estate sample_normalized);
    vm_compute; reflexivity.
Defined.

Lemma format_estate_text_field_other_witness :
  dict_get (lit "houseType") odd_fields_normalized = None /\
  dict_get (lit "title") odd_fields_normalized = Some (JStr []) /\
  dict_get (lit "location") odd_fields_normalized = Some JNull /\
  dict_get (lit "area") odd_fields_normalized = Some (JList [JInt 1]).
Proof.
  assert (H : format_estate estate_odd_fields = Ok odd_fields_normalized)
    by (vm_compute; reflexivity).
  split; [|split; [|split]].
  - apply (proj1 (format_estate_text_field_other _ _ (lit "houseType") H
                    ltac:(simpl; tauto))).
    reflexivity.
  - apply (proj2 (format_estate_text_field_other _ _ (lit "title") H
                    ltac:(simpl; tauto)) (JInt 0)); reflexivity.
  - apply (proj2 (format_estate_text_field_other _ _ (lit "location") H
                    ltac:(simpl; tauto)) JNull); reflexivity.
  - apply (proj2 (format_estate_text_field_other _ _ (lit "area") H
                    ltac:(simpl; tauto)) (JList [JInt 1])); reflexivity.
Defined.

(** *** Which exception *)

Lemma format_estate_image_raise (estate : dict) (e : exn) :
  image_urls_of estate = Raise e -> format_estate estate = Raise e.
Proof.
  intros H. destruct (format_estate_steps estate) as (r & _ & _ & ->).
  now rewrite H.
Qed.

(** X8.  The exception that malformed [images] raise, whatever else the
    record holds: [TypeError] when [images] is [null], a boolean or a
    number; [AttributeError] at the first entry that is no mapping, and
    [TypeError] at the first entry whose file name is a true value that
    is no string, when the entries before it can be handled. *)
Theorem format_estate_image_errors (estate : dict) :
  (forall v, dict_get (lit "images") estate = Some v ->
             is_str v = false -> is_list v = false -> is_obj v = false ->
             format_estate estate = Raise TypeError) /\
  (forall good bad later,
      dict_get (lit "images") estate = Some (JList (good ++ bad :: later)) ->
      forallb (entry_ok (lit "file_name")) good = true ->
      (is_obj bad = false -> format_estate estate = Raise AttributeError) /\
      (forall d v, bad = JObj d -> dict_get (lit "file_name") d = Some v ->
                   truthy v = true -> is_str v = false ->
                   format_estate estate = Raise TypeError)).
Proof.
  split.
  - intros v Hv Hs Hl Ho. apply format_estate_image_raise.
    unfold image_urls_of, dict_get_default. rewrite Hv.
    destruct v; try discriminate; reflexivity.
  - intros good bad later Hv Hgood. rewrite forallb_forall in Hgood.
    assert (Hstep : forall x, In x good ->
                              image_url x = Ok (map JStr (image_step x)))
      by (intros x Hx; apply image_url_ok, Hgood, Hx).
    split.
    + intros Ho. apply format_estate_image_raise.
      unfold image_urls_of, dict_get_default. rewrite Hv. cbn [py_iter bind].
      apply (comprehension_raise image_url _ good bad later _ Hstep).
      destruct bad; try discriminate; reflexivity.
    + intros d v -> Hd Ht Hs. apply format_estate_image_raise.
      unfold image_urls_of, dict_get_default. rewrite Hv. cbn [py_iter bind].
      apply (comprehension_raise image_url _ good (JObj d) later _ Hstep).
      unfold image_url, py_get, py_item, dict_item. rewrite Hd. cbn [bind].
      rewrite Ht. destruct v; try discriminate; reflexivity.
Qed.

Lemma format_estate_image_errors_witness :
  format_estate estate_images_number = Raise TypeError /\
  format_estate estate_image_text = Raise AttributeError /\
  format_estate estate_file_name_number = Raise TypeError.
Proof.
  split; [|split].
  - apply (proj1 (format_estate_image_errors estate_images_number) (JInt 5));
      reflexivity.
  - apply (proj1 (proj2 (format_estate_image_errors estate_image_text)
                    [good_image] (JStr (lit "b.jpg")) [] eq_refl eq_refl)).
    reflexivity.
  - apply (proj2 (proj2 (format_estate_image_errors estate_file_name_number)
                    [good_image] (JObj [(lit "file_name", JInt 5)]) []
                    eq_refl eq_refl)
             [(lit "file_name", JInt 5)] (JInt 5)); reflexivity.
Defined.

(** *** A second pass *)

(** X9.  [format_estate] is not idempotent.  On a record it has returned
    it returns again, with the same [image_urls]; but [types], a string
    by then, is replaced by the empty string. *)
Theorem format_estate_twice (estate res : dict) :
  format_estate estate = Ok res ->
  exists res',
    format_estate res = Ok res' /\
    dict_get (lit "image_urls") res' = dict_get (lit "image_urls") res /\
    dict_get (lit "types") res' = Some (JStr []).
Proof.
  intros H.
  destruct (format_estate_image_urls _ _ H) as [urls [Hu Hgu]].
  destruct (format_estate_types _ _ H) as [joined [_ Hgt]].
  assert (Hi : dict_get (lit "images") res = dict_get (lit "images") estate).
  { destruct (format_estate_inv _ _ H) as (r & u & j & Hr & _ & _ & ->).
    rewrite !dict_get_set_other by reflexivity. now rewrite Hr, field_images. }
  destruct (format_estate_steps res) as (r' & _ & _ & E).
  rewrite (image_urls_of_get res estate Hi), Hu in E. cbn [bind] in E.
  assert (Ht : types_of res = Ok []).
  { unfold types_of, dict_get_default. rewrite Hgt. cbn [is_list].
    now rewrite andb_false_r. }
  rewrite Ht in E. cbn [bind] in E.
  eexists. split; [exact E|]. split.
  - rewrite dict_get_set_other by reflexivity.
    now rewrite dict_get_set_same, Hgu.
  - apply dict_get_set_same.
Qed.

Lemma format_estate_twice_witness :
  exists res',
    format_estate sample_normalized = Ok res' /\
    dict_get (lit "image_urls") res' = dict_get (lit "image_urls") sample_normalized /\
    dict_get (lit "types") res' = Some (JStr []).
Proof.
  apply (format_estate_twice sample_estate sample_normalized).
  vm_compute. reflexivity.
Defined.

(** *** The keys of the result *)

Lemma dict_set_keys (k : str) (v : value) (d : dict) :
  map fst (dict_set k v d) = with_key k (map fst d).
Proof.
  unfold with_key. induction d as [|[k' v'] d IH]; [reflexivity|].
  cbn [dict_set map fst existsb].
  destruct (str_eqb k k'); [reflexivity|]. cbn [map fst orb].
  rewrite IH. now destruct (existsb (str_eqb k) (map fst d)).
Qed.

Lemma dict_get_some_keys (k : str) (v : value) (d : dict) :
  dict_get k d = Some v -> existsb (str_eqb k) (map fst d) = true.
Proof.
  induction d as [|[k' v'] d IH]; [discriminate|].
  cbn [dict_get map fst existsb].
  destruct (str_eqb k k'); [reflexivity|]. exact IH.
Qed.

Lemma decode_fields_keys (ks : list str) (res r : dict) :
  for_each decode_field ks res = Ok r -> map fst r = map fst res.
Proof.
  revert res. induction ks as [|k ks IH]; intros res H.
  - apply Ok_inj in H. now subst r.
  - cbn [for_each] in H. rewrite decode_field_eq in H. cbn [bind] in H.
    rewrite (IH _ H).
    destruct (dict_get k res) as [v|] eqn:E; [|reflexivity].
    destruct (is_none v); [reflexivity|].
    rewrite dict_set_keys. unfold with_key.
    now rewrite (dict_get_some_keys k v res E).
Qed.

(** X10.  The result has the keys of the input, in the input's order,
    and after them [image_urls] and then [types], each only if the input
    did not have it: no key is dropped and none is moved. *)
Theorem format_estate_keys (estate res : dict) :
  format_estate estate = Ok res ->
  map fst res
  = with_key (lit "types") (with_key (lit "image_urls") (map fst estate)).
Proof.
  intros H. destruct (format_estate_steps estate) as (r & Hfor & _ & E).
  rewrite E in H.
  destruct (image_urls_of estate) as [urls|x]; [|discriminate]. cbn [bind] in H.
  destruct (types_of estate) as [joined|x]; [|discriminate]. cbn [bind] in H.
  apply Ok_inj in H. subst res.
  now rewrite !dict_set_keys, (decode_fields_keys _ _ _ Hfor).
Qed.

Lemma format_estate_keys_witness :
  map fst sample_normalized
  = with_key (lit "types") (with_key (lit "image_urls") (map fst sample_estate)) /\
  map fst odd_fields_normalized
  = map fst estate_odd_fields ++ [lit "image_urls"; lit "types"].
Proof.
  split.
  - apply (format_estate_keys sample_estate). vm_compute. reflexivity.
  - apply (format_estate_keys estate_odd_fields). vm_compute. reflexivity.
Defined.

(** *** [decode_text] on strings *)

Lemma utf8_decode_ascii (s : str) :
  Forall (fun c => 0 <= c <= 127) s -> utf8_decode s = Ok s.
Proof.
  induction 1 as [|c s Hc Hs IH]; [reflexivity|].
  cbn [utf8_decode]. rewrite in_range_true by exact Hc.
  now rewrite IH.
Qed.

(** X11.  [decode_text] gives back unchanged a text of ASCII characters
    only. *)
Theorem decode_text_ascii (s : str) :
  Forall (fun c => 0 <= c <= 127) s -> decode_text (JStr s) = Ok (JStr s).
Proof.
  intros H. rewrite decode_text_str. unfold redecode.
  rewrite latin1_encode_bytes
    by (revert H; apply Forall_impl; intros c Hc; cbv beta; lia).
  now rewrite utf8_decode_ascii.
Qed.

Lemma decode_text_ascii_witness :
  decode_text (JStr (lit "Villa 2+1, sea view")) = Ok (JStr (lit "Villa 2+1, sea view")).
Proof.
  apply decode_text_ascii.
  repeat (apply Forall_cons; [vm_compute; split; discriminate|]).
  apply Forall_nil.
Defined.

(** X12.  [decode_text] undoes the damage it is written for: given the
    text that reading the UTF-8 bytes of [t] as Latin-1 characters makes,
    it returns [t], for every [t] of code points up to U+10FFFF that are
    no surrogates. *)
Theorem decode_text_repairs (t : str) :
  Forall scalar t ->
  decode_text (JStr (flat_map utf8_encode_cp t)) = Ok (JStr t).
Proof.
  intros H. rewrite decode_text_str. f_equal. f_equal.
  unfold redecode.
  rewrite latin1_encode_bytes.
  - now rewrite utf8_decode_encode.
  - apply Forall_flat_map. revert H. apply Forall_impl.
    intros c Hc. now apply utf8_encode_cp_bytes.
Qed.

Lemma decode_text_repairs_witness :
  decode_text (JStr [208; 159; 209; 128; 208; 184; 32; 240; 159; 143; 160])
  = Ok (JStr [1055; 1088; 1080; 32; 127968]).
Proof.
  apply (decode_text_repairs [1055; 1088; 1080; 32; 127968]).
  repeat (apply Forall_cons; [unfold scalar; lia|]). apply Forall_nil.
Defined.

(** ** The page function and the page loop, for every site *)

Lemma firstn_range_from (a : Z) (n m : nat) :
  (n <= m)%nat -> firstn n (range_from a m) = range_from a n.
Proof.
  revert a m. induction n as [|n IH]; intros a m H; [reflexivity|].
  destruct m as [|m]; [lia|]. cbn [range_from firstn].
  rewrite IH by lia. reflexivity.
Qed.

Lemma length_range_from (a : Z) (n : nat) : List.length (range_from a n) = n.
Proof. revert a. induction n; intros; simpl; auto. Qed.

(** A comprehension that adds one element per step returns exactly when
    every step does. *)
Lemma comprehension_each {A B} (f : A -> outcome B) (l : list A) (rs : list B) :
  comprehension (fun x => let* r := f x in Ok [r]) l = Ok rs <->
  Forall2 (fun x r => f x = Ok r) l rs.
Proof.
  revert rs. induction l as [|x l IH]; intros rs; cbn [comprehension].
  - split.
    + intros H. apply Ok_inj in H. subst rs. constructor.
    + intros H. inversion H. reflexivity.
  - split.
    + destruct (f x) as [r|e] eqn:Ex; [|discriminate]. cbn [bind].
      destruct (comprehension _ l) as [rest|e] eqn:Er; [|discriminate].
      cbn [bind]. intros H. apply Ok_inj in H. subst rs.
      constructor; [exact Ex|]. now apply IH.
    + intros H. inversion H as [|x' r l' rest Hx Hrest]; subst.
      rewrite Hx. cbn [bind].
      apply IH in Hrest. rewrite Hrest. reflexivity.
Qed.

Section PaginatorFurther.

Variable json_loads : str -> outcome value.
Variable print_error : exn -> outcome unit.
Variable session_get : Z -> outcome str.
Variable format_nonmapping : value -> outcome dict.

Let records := page_records json_loads print_error session_get format_nonmapping.
Let get_page := get_realestates_page json_loads print_error session_get format_nonmapping.
Let loop := page_loop json_loads print_error session_get format_nonmapping.
Let get_all := get_all_realestates json_loads print_error session_get format_nonmapping.

(** X13.  One call of [get_realestates_page] makes exactly one request,
    the one for its page: also when the request fails, when the
    extractor's handler raises, when the payload cannot be iterated over
    and when [format_estate] raises on a record. *)
Theorem get_realestates_page_one_request (p : Z) (log : list Z) :
  exists r, get_page p log = (r, log ++ [p]) /\
            (forall e, session_get p = Raise e -> r = Raise e).
Proof.
  unfold get_page, get_realestates_page, mbind, fetch, lift, ret.
  destruct (session_get p) as [response|e];
    [|eexists; split; [reflexivity|congruence]].
  destruct (extract_realestates json_loads print_error response) as [raw|e];
    [|eexists; split; [reflexivity|discriminate]].
  destruct (py_iter raw) as [elems|e];
    [|eexists; split; [reflexivity|discriminate]].
  destruct (comprehension _ elems);
    eexists; split; try reflexivity; discriminate.
Qed.

Lemma comprehension_format_element (ds : list dict) :
  comprehension (format_element format_nonmapping) (map JObj ds) =
  comprehension (fun d => let* r := format_estate d in Ok [r]) ds.
Proof.
  induction ds as [|d ds IH]; [reflexivity|].
  cbn [map comprehension format_element]. now rewrite IH.
Qed.

(** X14.  On a page whose payload is a list of mappings, the page
    function returns exactly when [format_estate] returns on every one
    of them, and then it returns their normalised records, one for each,
    in the payload's order. *)
Theorem page_records_of_mappings (p : Z) (text : str) (ds l : list dict) :
  session_get p = Ok text ->
  extract_realestates json_loads print_error text = Ok (JList (map JObj ds)) ->
  (records p = Ok l <-> Forall2 (fun d r => format_estate d = Ok r) ds l).
Proof.
  intros Hs He. unfold records, page_records. rewrite Hs. cbn [bind].
  rewrite He. cbn [bind py_iter].
  rewrite comprehension_format_element. apply comprehension_each.
Qed.

(** X15.  One record that [format_estate] raises on discards the whole
    page: the page function raises that exception, whatever the records
    before and after it. *)
Theorem page_records_bad_record (p : Z) (text : str)
        (good : list dict) (bad : dict) (later : list dict) (e : exn) :
  session_get p = Ok text ->
  extract_realestates json_loads print_error text
  = Ok (JList (map JObj (good ++ bad :: later))) ->
  Forall (fun d => exists r, format_estate d = Ok r) good ->
  format_estate bad = Raise e ->
  records p = Raise e.
Proof.
  intros Hs He Hgood Hbad. unfold records, page_records. rewrite Hs. cbn [bind].
  rewrite He. cbn [bind py_iter]. rewrite comprehension_format_element.
  clear He. induction good as [|d good IH]; cbn [app comprehension].
  - now rewrite Hbad.
  - inversion Hgood as [|d' good' [r Hr] Hrest]; subst.
    rewrite Hr. cbn [bind]. now rewrite (IH Hrest).
Qed.

(** The requests of the loop are a prefix of the pages it was given. *)
Lemma page_loop_requests (pages : list Z) (l : locals) (log : list Z) :
  exists n, (n <= List.length pages)%nat /\
            snd (loop pages l log) = log ++ firstn n pages.
Proof.
  revert l log. induction pages as [|p pages IH]; intros l log.
  - exists 0%nat. split; [lia|]. unfold loop. cbn. now rewrite app_nil_r.
  - unfold loop.
    rewrite (page_loop_step json_loads print_error session_get format_nonmapping).
    destruct (page_records _ _ _ _ p) as [es|e].
    + destruct (is_nil es).
      * exists 1%nat. split; [simpl; lia|reflexivity].
      * destruct (IH {| page := Some p; estates := Some es;
                        all_estates := all_estates l ++ es |} (log ++ [p]))
          as [n [Hn Hsnd]].
        exists (S n). split; [simpl; lia|].
        unfold loop in Hsnd. rewrite Hsnd, <- app_assoc. reflexivity.
    + exists 1%nat. split; [simpl; lia|reflexivity].
Qed.

(** X16.  Whatever the site answers, and whether the run returns or
    raises, the pages requested are 1, 2, ..., [k] in this order for some
    [k] that is at most [max_pages]: never more than [max_pages]
    requests, none repeated, none skipped. *)
Theorem get_all_realestates_request_bound (max_pages : Z) (log : list Z) :
  exists k, 0 <= k <= Z.max 0 max_pages /\
            snd (get_all max_pages log) = log ++ py_range 1 (k + 1).
Proof.
  unfold get_all.
  rewrite (get_all_realestates_eq json_loads print_error session_get format_nonmapping).
  destruct (page_loop_requests (py_range 1 (max_pages + 1))
              {| page := None; estates := None; all_estates := [] |} log)
    as [n [Hn Hsnd]].
  unfold py_range in Hn, Hsnd. rewrite length_range_from in Hn.
  rewrite firstn_range_from in Hsnd by exact Hn.
  exists (Z.of_nat n). split; [lia|].
  replace (py_range 1 (Z.of_nat n + 1)) with (range_from 1 n)
    by (unfold py_range; f_equal; lia).
  rewrite <- Hsnd. unfold loop, py_range.
  destruct (page_loop _ _ _ _ _ _) as [[l|e] log']; [|reflexivity].
  destruct (estates l); [|reflexivity]. destruct (page l); reflexivity.
Qed.

Variable recs : Z -> list dict.

Lemma page_loop_raise (good : list Z) (bad : Z) (later : list Z)
      (l : locals) (log : list Z) (e : exn) :
  (forall p, In p good -> records p = Ok (recs p) /\ recs p <> []) ->
  records bad = Raise e ->
  loop (good ++ bad :: later) l log = (Raise e, log ++ good ++ [bad]).
Proof.
  intros Hgood Hbad. revert l log.
  induction good as [|p good IH]; intros l log.
  - cbn [app]. unfold loop.
    rewrite (page_loop_step json_loads print_error session_get format_nonmapping).
    fold records. now rewrite Hbad.
  - cbn [app]. unfold loop.
    rewrite (page_loop_step json_loads print_error session_get format_nonmapping).
    fold records loop.
    destruct (Hgood p (or_introl eq_refl)) as [-> Hne].
    rewrite (is_nil_false _ Hne).
    rewrite IH by (intros q Hq; apply Hgood; now right).
    now rewrite <- !app_assoc.
Qed.

(** X17.  When page [n] raises, after pages with records, the run raises
    the same exception right after the request of page [n]: no later
    page is requested and the records gathered from the pages before are
    not returned. *)
Theorem get_all_realestates_page_raises (max_pages n : Z) (log : list Z) (e : exn) :
  1 <= n <= max_pages ->
  (forall p, 1 <= p < n -> records p = Ok (recs p) /\ recs p <> []) ->
  records n = Raise e ->
  get_all max_pages log = (Raise e, log ++ py_range 1 (n + 1)).
Proof.
  intros Hn Hgood Hbad. unfold get_all.
  rewrite (get_all_realestates_eq json_loads print_error session_get format_nonmapping).
  rewrite (py_range_split 1 n (max_pages + 1)) by lia.
  rewrite (py_range_first n (max_pages + 1)) by lia.
  fold loop. rewrite (page_loop_raise _ _ _ _ _ e);
    [|intros p Hp; apply Hgood; apply in_py_range in Hp; lia|exact Hbad].
  rewrite (py_range_split 1 n (n + 1)) by lia.
  now rewrite py_range_one.
Qed.

(** X18.  A page on which the extractor finds nothing, because the
    marker is not there or because its block never closes, ends the run
    like a page without records: the run returns the records of the
    pages before it and raises nothing. *)
Theorem get_all_realestates_stops_silently (max_pages n : Z) (log : list Z)
        (text : str) :
  1 <= n <= max_pages ->
  (forall p, 1 <= p < n -> records p = Ok (recs p) /\ recs p <> []) ->
  session_get n = Ok text ->
  (~ occurs key text \/
   exists pre rest, text = pre ++ key ++ rest /\ ~ occurs key pre /\
                    never_closes rest) ->
  get_all max_pages log =
  (Ok (flat_map recs (py_range 1 n)), log ++ py_range 1 (n + 1)).
Proof.
  intros Hn Hgood Hs Hnone.
  assert (Hex : extract_realestates json_loads print_error text = Ok (JList [])).
  { destruct Hnone as [Hno|(pre & rest & -> & Hno & Hopen)].
    - unfold extract_realestates. cbv zeta.
      apply str_find_absent in Hno. now rewrite Hno.
    - rewrite extract_at by exact Hno.
      rewrite scan_never_closes; [reflexivity|].
      intros k Hk. apply (Hopen k Hk). }
  assert (Hstop : records n = Ok []).
  { unfold records, page_records. rewrite Hs. cbn [bind]. now rewrite Hex. }
  unfold get_all.
  rewrite (get_all_realestates_eq json_loads print_error session_get format_nonmapping).
  rewrite (py_range_split 1 n (max_pages + 1)) by lia.
  rewrite (py_range_first n (max_pages + 1)) by lia.
  rewrite (page_loop_stop json_loads print_error session_get format_nonmapping recs);
    [|intros p Hp; apply Hgood; apply in_py_range in Hp; lia|exact Hstop].
  cbn [estates page all_estates app].
  rewrite (py_range_split 1 n (n + 1)) by lia.
  now rewrite py_range_one.
Qed.

End PaginatorFurther.

Lemma page_records_of_mappings_witness :
  Forall2 (fun d r => format_estate d = Ok r)
    [[(lit "id", JInt 7); (lit "title", JStr (lit "Villa"))]; [(lit "id", JInt 8)]]
    (sample_records 1).
Proof.
  apply (proj1 (page_records_of_mappings JsonRef.loads quiet_print sample_site no_nonmapping
                  1 page_one
                  [[(lit "id", JInt 7); (lit "title", JStr (lit "Villa"))];
                   [(lit "id", JInt 8)]]
                  (sample_records 1) eq_refl
                  ltac:(vm_compute; reflexivity))).
  vm_compute. reflexivity.
Defined.

Lemma page_records_bad_record_witness :
  page_records JsonRef.loads quiet_print site_raising no_nonmapping 2 = Raise AttributeError.
Proof.
  apply (page_records_bad_record JsonRef.loads quiet_print site_raising no_nonmapping 2
           page_bad_record [[(lit "id", JInt 1)]]
           [(lit "id", JInt 2); (lit "types", JList [JStr (lit "Villa")])]
           [[(lit "id", JInt 3)]]).
  - reflexivity.
  - vm_compute. reflexivity.
  - repeat constructor. eexists. vm_compute. reflexivity.
  - vm_compute. reflexivity.
Defined.

Lemma get_all_realestates_page_raises_witness :
  get_all_realestates JsonRef.loads quiet_print site_raising no_nonmapping 5 []
  = (Raise AttributeError, [] ++ py_range 1 (2 + 1)).
Proof.
  apply (get_all_realestates_page_raises JsonRef.loads quiet_print site_raising
           no_nonmapping sample_records 5 2).
  - lia.
  - intros p Hp. assert (E : p = 1) by lia. subst p.
    split; [vm_compute; reflexivity|vm_compute; discriminate].
  - vm_compute. reflexivity.
Defined.

Lemma get_all_realestates_stops_silently_witness :
  get_all_realestates JsonRef.loads quiet_print sample_site no_nonmapping 5 []
  = (Ok (flat_map sample_records (py_range 1 3)), [] ++ py_range 1 (3 + 1)).
Proof.
  apply (get_all_realestates_stops_silently JsonRef.loads quiet_print sample_site
           no_nonmapping sample_records 5 3 [] page_no_marker).
  - lia.
  - intros p Hp. assert (E : p = 1 \/ p = 2) by lia.
    destruct E as [-> | ->]; split;
      solve [vm_compute; reflexivity | vm_compute; discriminate].
  - reflexivity.
  - left. apply absent_dec. vm_compute. reflexivity.
Defined.

(** ** The rows of the sink *)

Section SinkProperties.

Variable str_of_other : value -> str.

(** X19.  The row that [save_to_postgres] builds from a record that
    [format_estate] has returned: the columns outside the text fields
    hold what the raw record held under these keys, [None] for a key it
    did not have; the [types] column is the flattened string itself,
    never [None], also when it is empty; the [image_urls] column is the
    list of URLs. *)
Theorem estate_row_normalized (estate res : dict) :
  format_estate estate = Ok res ->
  exists (urls : list str) (joined : str),
    types_of estate = Ok joined /\
    image_urls_of estate = Ok (map JStr urls) /\
    estate_row str_of_other res =
    [col "id" estate; col "title" res; col "bed_room" estate;
     col "max_bed" estate; col "bathroom" estate; col "metrage" estate;
     col "price" estate; col "price_min" estate; col "price_max" estate;
     col "location" res; col "area" res; col "money_type" estate;
     col "is_multi" estate; col "houseType" res;
     JStr joined; JList (map JStr urls)].
Proof.
  intros H.
  destruct (format_estate_image_urls _ _ H) as [urls [Hu Hgu]].
  destruct (format_estate_types _ _ H) as [joined [Ht Hgt]].
  destruct (image_urls_of_strings _ _ Hu) as [us ->].
  exists us, joined. split; [exact Ht|]. split; [exact Hu|].
  assert (Hpass : forall k,
             existsb (str_eqb (lit k)) (text_fields ++ derived_keys) = false ->
             col k res = col k estate).
  { intros k Hk. unfold col, dict_get_default.
    destruct (format_estate_inv _ _ H) as (r & u & j & Hr & _ & _ & ->).
    rewrite existsb_app in Hk. apply orb_false_iff in Hk as [Hf Hd].
    cbn [derived_keys existsb] in Hd.
    apply orb_false_iff in Hd as [Hi Hd]. apply orb_false_iff in Hd as [Hty _].
    rewrite !dict_get_set_other by assumption. now rewrite Hr, Hf. }
  assert (Ety : col "types" res = JStr joined)
    by (unfold col, dict_get_default; now rewrite Hgt).
  assert (Eur : col "image_urls" res = JList (map JStr us))
    by (unfold col, dict_get_default; now rewrite Hgu).
  unfold estate_row. rewrite Ety, Eur.
  rewrite (Hpass "id"%string), (Hpass "bed_room"%string), (Hpass "max_bed"%string),
    (Hpass "bathroom"%string), (Hpass "metrage"%string), (Hpass "price"%string),
    (Hpass "price_min"%string), (Hpass "price_max"%string), (Hpass "money_type"%string),
    (Hpass "is_multi"%string) by reflexivity.
  reflexivity.
Qed.

End SinkProperties.

Lemma estate_row_normalized_witness :
  exists (urls : list str) (joined : str),
    types_of sample_estate = Ok joined /\
    image_urls_of sample_estate = Ok (map JStr urls) /\
    estate_row (fun _ => lit "?") sample_normalized =
    [col "id" sample_estate; col "title" sample_normalized;
     col "bed_room" sample_estate; col "max_bed" sample_estate;
     col "bathroom" sample_estate; col "metrage" sample_estate;
     col "price" sample_estate; col "price_min" sample_estate;
     col "price_max" sample_estate; col "location" sample_normalized;
     col "area" sample_normalized; col "money_type" sample_estate;
     col "is_multi" sample_estate; col "houseType" sample_normalized;
     JStr joined; JList (map JStr urls)].
Proof.
  apply (estate_row_normalized (fun _ => lit "?") sample_estate sample_normalized).
  vm_compute. reflexivity.
Defined.

(** ** A payload whose [realEstates] is no list *)

(** X20.  The page function iterates over whatever the extractor
    returns.  When the payload holds [null], a boolean or a number under
    [realEstates] it raises [TypeError]; when it holds an empty string or
    an empty mapping it returns no records, like an empty list. *)
Theorem page_records_not_a_list (json_loads : str -> outcome value)
        (print_error : exn -> outcome unit)
        (session_get : Z -> outcome str)
        (format_nonmapping : value -> outcome dict)
        (p : Z) (text : str) (v : value) :
  session_get p = Ok text ->
  extract_realestates json_loads print_error text = Ok v ->
  (not_iterable v = true ->
   page_records json_loads print_error session_get format_nonmapping p = Raise TypeError) /\
  (v = JStr [] \/ v = JObj [] ->
   page_records json_loads print_error session_get format_nonmapping p = Ok []).
Proof.
  intros Hs He. unfold page_records. rewrite Hs. cbn [bind]. rewrite He.
  cbn [bind]. split.
  - intros Hv. destruct v; try discriminate; reflexivity.
  - intros [-> | ->]; reflexivity.
Qed.

Lemma page_records_not_a_list_witness :
  page_records JsonRef.loads quiet_print (fun _ => Ok page_null) no_nonmapping 1
  = Raise TypeError.
Proof.
  apply (proj1 (page_records_not_a_list JsonRef.loads quiet_print (fun _ => Ok page_null)
                  no_nonmapping 1 page_null JNull eq_refl
                  ltac:(vm_compute; reflexivity))).
  reflexivity.
Defined.
